(** * Liquid Schema Plugin

    A shallow embedding of [src/plugin/index.js]: the webpack plugin that
    rewrites [{% schema 'file' %}] directives of Liquid sections with the
    JSON produced by a schema module, and expands [{% duplicate %}]
    directives into several assets.

    Layout of the development:
    - [JS]: the fragment of the host language the plugin relies on
      (values, [typeof], truthiness, string conversion, regular
      expressions with capture groups, [String.prototype.replace]);
    - [Host]: the services of Node and webpack the plugin calls ([path],
      [fs-extra], [require], [JSON]), taken as an interface;
    - the plugin itself, one definition per method of [LiquidSchemaPlugin],
      written in a state-and-exception monad over the compilation object
      and the module cache;
    - a concrete host ([Demo]) on which the definitions are evaluated;
    - the properties.

    The constructor (validation of the options) and [apply] (registration
    of [buildSchema] on the hooks of webpack) are not modelled: the
    development starts where [buildSchema] is called.

    Strings are sequences of code units below 256 (one [ascii] each). *)

From stdpp Require Import gmap strings list.
From Stdlib Require Import Ascii ZArith DecimalString.

Open Scope string_scope.
Set Warnings "-register-all,-clear-no-such-hyp".

(** ** The host language *)

Module JS.

(** *** Values *)

(** Data that [JSON.parse] can return. *)
Inductive json :=
| JNull
| JBool (b : bool)
| JNum (n : Z)
| JStr (s : string)
| JArr (l : list json)
| JObj (fields : list (string * json)).

(** What is thrown: the plugin throws strings, the host throws [Error]
    objects (a name and a message). *)
Inductive thrown :=
| ThrownString (s : string)
| ThrownError (name message : string).

Inductive result (A : Type) :=
| Ok (a : A)
| Throw (e : thrown).
Arguments Ok {A} a.
Arguments Throw {A} e.

(** Values a schema module can export.  A function is called by the plugin
    with a string and parsed JSON (or [null]); [src] is its source text,
    which is what string conversion gives for it. *)
Inductive value :=
| VUndefined
| VNull
| VBool (b : bool)
| VNum (n : Z)
| VStr (s : string)
| VArr (l : list value)
| VObj (fields : list (string * value))
| VFun (src : string) (call : string → json → result value).

Fixpoint of_json (j : json) : value :=
  match j with
  | JNull => VNull
  | JBool b => VBool b
  | JNum n => VNum n
  | JStr s => VStr s
  | JArr l => VArr (map of_json l)
  | JObj fs => VObj (map (λ kv, (kv.1, of_json kv.2)) fs)
  end.

(** The [typeof] operator. *)
Inductive type_tag :=
| TUndefined | TObject | TBoolean | TNumber | TString | TFunction.

Definition typeof (v : value) : type_tag :=
  match v with
  | VUndefined => TUndefined
  | VNull => TObject
  | VBool _ => TBoolean
  | VNum _ => TNumber
  | VStr _ => TString
  | VArr _ => TObject
  | VObj _ => TObject
  | VFun _ _ => TFunction
  end.

Definition is_object_type (t : type_tag) : bool :=
  match t with TObject => true | _ => false end.

(** Truthiness of parsed JSON, as tested by [if (x)]. *)
Definition truthy (j : json) : bool :=
  match j with
  | JNull => false
  | JBool b => b
  | JNum n => negb (n =? 0)%Z
  | JStr s => negb (String.eqb s "")
  | JArr _ => true
  | JObj _ => true
  end.

Definition number_to_string (n : Z) : string :=
  NilZero.string_of_int (Z.to_int n).

Fixpoint join (sep : string) (l : list string) : string :=
  match l with
  | [] => ""
  | [s] => s
  | s :: rest => s +:+ sep +:+ join sep rest
  end.

(** String conversion ([ToString]), for values without a [toString] of
    their own.  Inside an array, [null] and [undefined] give the empty
    string. *)
Fixpoint to_string (v : value) : string :=
  match v with
  | VUndefined => "undefined"
  | VNull => "null"
  | VBool true => "true"
  | VBool false => "false"
  | VNum n => number_to_string n
  | VStr s => s
  | VArr l =>
      join "," (map (λ x, match x with
                          | VUndefined | VNull => ""
                          | _ => to_string x
                          end) l)
  | VObj _ => "[object Object]"
  | VFun src _ => src
  end.

(** An element of the array [Array.prototype.join] works on. *)
Definition join_item (v : value) : string :=
  match v with
  | VUndefined | VNull => ""
  | _ => to_string v
  end.

(** String conversion of a thrown value, as in a template literal. *)
Definition thrown_to_string (e : thrown) : string :=
  match e with
  | ThrownString s => s
  | ThrownError name message =>
      if String.eqb message "" then name else name +:+ ": " +:+ message
  end.

(** *** Regular expressions *)

(** Character sets: a literal, [\s], [.], [[\s\S]]. *)
Inductive cset :=
| CsChar (c : ascii)
| CsWhite
| CsDot
| CsAny.

Definition is_white (a : ascii) : bool :=
  let n := nat_of_ascii a in
  ((n =? 9) || (n =? 10) || (n =? 11) || (n =? 12) || (n =? 13)
   || (n =? 32) || (n =? 160))%nat.

Definition is_line_terminator (a : ascii) : bool :=
  let n := nat_of_ascii a in ((n =? 10) || (n =? 13))%nat.

Definition cset_mem (cs : cset) (a : ascii) : bool :=
  match cs with
  | CsChar c => Ascii.eqb c a
  | CsWhite => is_white a
  | CsDot => negb (is_line_terminator a)
  | CsAny => true
  end.

(** The expressions of the plugin quantify single characters only
    ([\s*], [.*], [[\s\S]*], [-?]) or make a group optional. *)
Inductive regex :=
| Eps
| Chr (cs : cset)
| Seq (r1 r2 : regex)
| Alt (r1 r2 : regex)
| Opt (r : regex)
| Star (cs : cset)
| Group (i : nat) (r : regex)
| Bol
| Eol.

Fixpoint lit (s : string) : regex :=
  match s with
  | EmptyString => Eps
  | String c EmptyString => Chr (CsChar c)
  | String c rest => Seq (Chr (CsChar c)) (lit rest)
  end.

Fixpoint seq (l : list regex) : regex :=
  match l with
  | [] => Eps
  | [r] => r
  | r :: rest => Seq r (seq rest)
  end.

Fixpoint ngroups (r : regex) : nat :=
  match r with
  | Eps | Chr _ | Star _ | Bol | Eol => 0
  | Seq r1 r2 | Alt r1 r2 => ngroups r1 `max` ngroups r2
  | Opt r1 => ngroups r1
  | Group i r1 => i `max` ngroups r1
  end.

(** Captures hold the start and end offsets of each group, [None] while the
    group has not taken part in the match. *)
Definition caps := list (option (nat * nat)).

Definition set_cap (i : nat) (span : nat * nat) (c : caps) : caps :=
  <[pred i := Some span]> c.

(** The backtracking matcher, in continuation-passing style: [k] is what
    remains to be matched after [r].  Quantifiers are greedy, alternatives
    are tried left to right. *)
Fixpoint rmatch {R : Type} (r : regex) (pos : nat) (s : string) (c : caps)
    (k : nat → string → caps → option R) : option R :=
  match r with
  | Eps => k pos s c
  | Chr cs =>
      match s with
      | String a s' => if cset_mem cs a then k (S pos) s' c else None
      | EmptyString => None
      end
  | Seq r1 r2 => rmatch r1 pos s c (λ pos' s' c', rmatch r2 pos' s' c' k)
  | Alt r1 r2 =>
      match rmatch r1 pos s c k with
      | Some x => Some x
      | None => rmatch r2 pos s c k
      end
  | Opt r1 =>
      match rmatch r1 pos s c k with
      | Some x => Some x
      | None => k pos s c
      end
  | Star cs =>
      (fix star (pos : nat) (s : string) {struct s} : option R :=
         match s with
         | String a s' =>
             if cset_mem cs a then
               match star (S pos) s' with
               | Some x => Some x
               | None => k pos s c
               end
             else k pos s c
         | EmptyString => k pos s c
         end) pos s
  | Group i r1 =>
      rmatch r1 pos s c (λ pos' s' c', k pos' s' (set_cap i (pos, pos') c'))
  | Bol => if (pos =? 0)%nat then k pos s c else None
  | Eol =>
      match s with
      | EmptyString => k pos s c
      | String _ _ => None
      end
  end.

(** A match anchored at [pos]: the end offset and the captures. *)
Definition match_at (r : regex) (pos : nat) (s : string) : option (nat * caps) :=
  rmatch r pos s (replicate (ngroups r) None) (λ e _ c, Some (e, c)).

(** The leftmost match at or after [pos]; [s] is the input from [pos] on. *)
Fixpoint search (r : regex) (pos : nat) (s : string) : option (nat * nat * caps) :=
  match match_at r pos s with
  | Some (e, c) => Some (pos, e, c)
  | None =>
      match s with
      | String _ s' => search r (S pos) s'
      | EmptyString => None
      end
  end.

(** The array [RegExp.prototype.exec] returns: the matched text, the
    groups ([None] is [undefined]) and the offsets. *)
Record match_result := {
  m_index : nat;
  m_end : nat;
  m_text : string;
  m_groups : list (option string)
}.

Definition slice (s : string) (b e : nat) : string := String.substring b (e - b) s.

Definition drop_str (n : nat) (s : string) : string :=
  String.substring n (String.length s - n) s.

Definition mk_match (s : string) (b e : nat) (c : caps) : match_result :=
  {| m_index := b; m_end := e; m_text := slice s b e;
     m_groups := map (λ o, match o with
                           | Some (gb, ge) => Some (slice s gb ge)
                           | None => None
                           end) c |}.

Definition exec (r : regex) (s : string) : option match_result :=
  match search r 0 s with
  | Some (b, e, c) => Some (mk_match s b e c)
  | None => None
  end.

Definition test (r : regex) (s : string) : bool :=
  match exec r s with Some _ => true | None => false end.

(** The [n]th group of a match, numbered from 1. *)
Definition group (m : match_result) (n : nat) : option string :=
  match m_groups m !! pred n with
  | Some g => g
  | None => None
  end.

(** *** Replacement *)

Definition is_digit (a : ascii) : bool :=
  let n := nat_of_ascii a in ((48 <=? n) && (n <=? 57))%nat.

Definition digit (a : ascii) : nat := nat_of_ascii a - 48.

Definition cap_text (gs : list (option string)) (n : nat) : string :=
  match gs !! pred n with
  | Some (Some t) => t
  | _ => ""
  end.

Definition valid_cap (gs : list (option string)) (n : nat) : bool :=
  ((1 <=? n) && (n <=? length gs))%nat.

(** The replacement text of [String.prototype.replace] ([GetSubstitution]):
    [$$], [$&], [$`], [$'], [$n] and [$nn] are patterns, anything else is
    copied. *)
Fixpoint get_substitution (matched before after : string)
    (gs : list (option string)) (repl : string) {struct repl} : string :=
  match repl with
  | EmptyString => ""
  | String a tl =>
      match tl with
      | EmptyString => String a ""
      | String b rest =>
          if negb (Ascii.eqb a "$") then
            String a (get_substitution matched before after gs tl)
          else if Ascii.eqb b "$" then
            String "$" (get_substitution matched before after gs rest)
          else if Ascii.eqb b "&" then
            matched +:+ get_substitution matched before after gs rest
          else if Ascii.eqb b "`" then
            before +:+ get_substitution matched before after gs rest
          else if Ascii.eqb b "'" then
            after +:+ get_substitution matched before after gs rest
          else if is_digit b then
            match rest with
            | String d rest' =>
                if is_digit d && valid_cap gs (10 * digit b + digit d) then
                  cap_text gs (10 * digit b + digit d)
                  +:+ get_substitution matched before after gs rest'
                else if valid_cap gs (digit b) then
                  cap_text gs (digit b)
                  +:+ get_substitution matched before after gs rest
                else String a (get_substitution matched before after gs tl)
            | EmptyString =>
                if valid_cap gs (digit b) then cap_text gs (digit b)
                else String a (String b "")
            end
          else String a (get_substitution matched before after gs tl)
      end
  end.

(** The first offset at or after [pos] where [pat] occurs; [s] is the input
    from [pos] on. *)
Fixpoint index_of (pat : string) (pos : nat) (s : string) : option nat :=
  if String.prefix pat s then Some pos
  else match s with
       | String _ s' => index_of pat (S pos) s'
       | EmptyString => None
       end.

(** [s.replace(pat, repl)] with a string pattern: the first occurrence
    only, and no capture groups. *)
Definition replace_string (s pat repl : string) : string :=
  match index_of pat 0 s with
  | Some i =>
      let before := slice s 0 i in
      let after := drop_str (i + String.length pat) s in
      before +:+ get_substitution pat before after [] repl +:+ after
  | None => s
  end.

(** [s.replace(r, repl)] with an expression without the [g] flag: the
    leftmost match only. *)
Definition replace_regex (s : string) (r : regex) (repl : string) : string :=
  match exec r s with
  | Some m =>
      let before := slice s 0 (m_index m) in
      let after := drop_str (m_end m) s in
      before +:+ get_substitution (m_text m) before after (m_groups m) repl
      +:+ after
  | None => s
  end.

(** [s.replace(r, repl)] with the [g] flag: every match, left to right, the
    search resuming where the previous match ended (one code unit further
    after an empty match).  [skip] counts the code units of the current
    match still to be passed over. *)
Fixpoint replace_all_from (whole : string) (r : regex) (repl : string)
    (pos skip : nat) (s : string) : string :=
  match skip with
  | S skip' =>
      match s with
      | String _ s' => replace_all_from whole r repl (S pos) skip' s'
      | EmptyString => ""
      end
  | 0 =>
      match match_at r pos s with
      | Some (e, c) =>
          let m := mk_match whole pos e c in
          let out := get_substitution (m_text m) (slice whole 0 pos)
                       (drop_str e whole) (m_groups m) repl in
          match s with
          | String a s' =>
              if (e =? pos)%nat
              then out +:+ String a (replace_all_from whole r repl (S pos) 0 s')
              else out +:+ replace_all_from whole r repl (S pos) (e - pos - 1) s'
          | EmptyString => out
          end
      | None =>
          match s with
          | String a s' => String a (replace_all_from whole r repl (S pos) 0 s')
          | EmptyString => ""
          end
      end
  end.

Definition replace_regex_g (s : string) (r : regex) (repl : string) : string :=
  replace_all_from s r repl 0 0 s.

End JS.

Import JS.

(** ** The host: Node and webpack *)

(** [fs.Stats], as far as the plugin looks at it. *)
Record stats := { isFile : bool }.

(** What executing a module file for the first time does: it gives the
    exports or throws, and the modules it requires itself enter the cache
    ([loaded_children], file name and exports). *)
Record load_outcome := {
  loaded_exports : result value;
  loaded_children : list (string * value)
}.

(** The services the plugin calls.  [path] is Node's module of that name,
    [fs_*] are the promises of [fs-extra], [require_resolve] is
    [require.resolve] (it throws when nothing is found), [module_load] is
    what [require] does to a file that is not in [require.cache];
    [JSON_stringify v n] is [JSON.stringify(v, null, n)]. *)
Class Host := {
  path_resolve : string → string → string;
  path_relative : string → string → string;
  path_join : string → string → string;
  path_basename : string → string → string;
  path_extname : string → string;
  path_dirname : string → string;
  fs_readdir : string → result (list string);
  fs_stat : string → result stats;
  fs_readFile : string → result string;
  require_resolve : string → result string;
  module_load : string → load_outcome;
  JSON_parse : string → result json;
  JSON_stringify : value → nat → string
}.

(** [this.options] of the plugin, and the two paths it reads from the
    compilation: [compilation.compiler.outputPath] and
    [compilation.options.context]. *)
Record config := {
  from_liquid : string;
  from_schema : string;
  to : string;
  outputPath : string;
  context : string
}.

(** A [RawSource] of webpack-sources holds its text in [_value]. *)
Record RawSource := { _value : string }.

(** One invocation of a schema function: the file of the module, and the
    two arguments. *)
Record call := {
  callee : string;
  arg_name : string;
  arg_contents : json
}.

(** The mutable objects: the four fields of [compilation] the plugin
    writes, [require.cache], and the log of the schema functions called. *)
Record state := {
  assets : gmap string string;
  errors : list string;
  fileDependencies : gset string;
  contextDependencies : gset string;
  require_cache : gmap string value;
  calls : list call
}.

Definition set_assets (f : gmap string string → gmap string string) (st : state) : state :=
  {| assets := f (assets st); errors := errors st;
     fileDependencies := fileDependencies st;
     contextDependencies := contextDependencies st;
     require_cache := require_cache st; calls := calls st |}.

Definition push_error (e : string) (st : state) : state :=
  {| assets := assets st; errors := errors st ++ [e];
     fileDependencies := fileDependencies st;
     contextDependencies := contextDependencies st;
     require_cache := require_cache st; calls := calls st |}.

Definition add_fileDependency (p : string) (st : state) : state :=
  {| assets := assets st; errors := errors st;
     fileDependencies := {[p]} ∪ fileDependencies st;
     contextDependencies := contextDependencies st;
     require_cache := require_cache st; calls := calls st |}.

Definition add_contextDependency (p : string) (st : state) : state :=
  {| assets := assets st; errors := errors st;
     fileDependencies := fileDependencies st;
     contextDependencies := {[p]} ∪ contextDependencies st;
     require_cache := require_cache st; calls := calls st |}.

Definition set_require_cache (f : gmap string value → gmap string value) (st : state) : state :=
  {| assets := assets st; errors := errors st;
     fileDependencies := fileDependencies st;
     contextDependencies := contextDependencies st;
     require_cache := f (require_cache st); calls := calls st |}.

Definition log_call (c : call) (st : state) : state :=
  {| assets := assets st; errors := errors st;
     fileDependencies := fileDependencies st;
     contextDependencies := contextDependencies st;
     require_cache := require_cache st; calls := calls st ++ [c] |}.

(** *** The monad of the plugin's methods: state and exceptions *)

Definition M (A : Type) : Type := state → result A * state.

Definition ret {A} (a : A) : M A := λ st, (Ok a, st).

Definition bind {A B} (m : M A) (f : A → M B) : M B :=
  λ st, match m st with
        | (Ok a, st') => f a st'
        | (Throw e, st') => (Throw e, st')
        end.

Definition throw {A} (e : thrown) : M A := λ st, (Throw e, st).

Definition lift {A} (r : result A) : M A := λ st, (r, st).

Definition gets {A} (f : state → A) : M A := λ st, (Ok (f st), st).

Definition modify (f : state → state) : M unit := λ st, (Ok tt, f st).

(** [try { m } catch (error) { h error }] *)
Definition try_catch {A} (m : M A) (h : thrown → M A) : M A :=
  λ st, match m st with
        | (Ok a, st') => (Ok a, st')
        | (Throw e, st') => h e st'
        end.

Declare Scope js_scope.
Delimit Scope js_scope with js.
Notation "'let*' x ':=' m 'in' k" := (bind m (λ x, k))
  (at level 10, x name, m at level 100, k at level 200) : js_scope.
Notation "m ';;' k" := (bind m (λ _, k))
  (at level 100, k at level 200, right associativity) : js_scope.

(** [Promise.all] over the promises of async functions that have all been
    started: every one runs to its end whatever happens to the others, and
    the result is rejected when one of them is.  The model runs them one
    after the other, in the order of the list. *)
Fixpoint promise_all (ms : list (M unit)) : M unit :=
  λ st, match ms with
        | [] => (Ok tt, st)
        | m :: rest =>
            let (r, st1) := m st in
            let (rs, st2) := promise_all rest st1 in
            (match r with Throw e => Throw e | Ok _ => rs end, st2)
        end.

Definition LF : string := String "010" "".
Definition dquote : string := String "034" "".

(** [Template.asString] of webpack. *)
Definition asString (lines : list string) : string := join LF lines.

(** ** The plugin *)

Section LiquidSchemaPlugin.

Context {HOST : Host}.
Variable options : config.

Open Scope js_scope.

(** *** [require] and [require.cache] *)

(** [require(p)]: resolve the file, answer from the cache when it is there,
    otherwise load the file; a module that throws while loading does not
    stay in the cache. *)
Definition require (p : string) : M value :=
  let* filename := lift (require_resolve p) in
  let* cache := gets require_cache in
  match cache !! filename with
  | Some exports => ret exports
  | None =>
      let out := module_load filename in
      modify (set_require_cache (λ c, c ∪ list_to_map (loaded_children out)));;
      match loaded_exports out with
      | Ok exports =>
          modify (set_require_cache (insert filename exports));;
          ret exports
      | Throw e => throw e
      end
  end.

(** [JSON.parse(contents)], where [contents] may be [undefined]: the text
    ["undefined"] is not JSON. *)
Definition JSON_parse_opt (contents : option string) : result json :=
  match contents with
  | Some text => JSON_parse text
  | None => Throw (ThrownError "SyntaxError" "Unexpected token u in JSON at position 0")
  end.

(** *** The regular expressions *)

Definition chr (a : ascii) : regex := Chr (CsChar a).
Definition ws : regex := Star CsWhite.
Definition quote : regex := Alt (chr "'") (chr "034").

(** The opening of a tag up to its name, and the closing: [{%-?\s*name\s*]
    and [-?%}]. *)
Definition tag_open (name : string) : regex :=
  seq [lit "{%"; Opt (chr "-"); ws; lit name; ws].
Definition tag_close : regex := seq [Opt (chr "-"); lit "%}"].

(** The expressions are quoted below with [Q] for the double quote and
    with a blank between a star and a closing parenthesis.

    [/{%-?\s*schema\s*('.*'|Q.*Q)\s*-?%}(([\s\S]* ){%-?\s*endschema\s*-?%})?/]
    of [replaceSchemaTags]. *)
Definition replaceableSchemaRegex : regex :=
  seq [tag_open "schema";
       Group 1 (Alt (seq [chr "'"; Star CsDot; chr "'"])
                    (seq [chr "034"; Star CsDot; chr "034"]));
       ws; tag_close;
       Opt (Group 2 (seq [Group 3 (Star CsAny); tag_open "endschema"; tag_close]))].

(** [/(^('|Q))|(('|Q)$)/g] of [replaceSchemaTags]. *)
Definition quotesRegex : regex :=
  Alt (Group 1 (Seq Bol (Group 2 quote))) (Group 3 (Seq (Group 4 quote) Eol)).

(** [/{%-?\s*duplicate\s*-?%}(([\s\S]* )){%-?\s*endduplicate\s*-?%}/] of
    [getDuplicateRules]. *)
Definition getDuplicateRules_regex : regex :=
  seq [tag_open "duplicate"; tag_close;
       Group 1 (Group 2 (Star CsAny));
       tag_open "endduplicate"; tag_close].

(** [/{%-?\s*duplicate\s*-?%}(([\s\S]* )){%-?\s*endduplicate\s*-?%}\n\n/]
    of [cleanDupicateTag]. *)
Definition cleanDupicateTag_regex : regex :=
  seq [tag_open "duplicate"; tag_close;
       Group 1 (Group 2 (Star CsAny));
       tag_open "endduplicate"; tag_close; lit (LF +:+ LF)].

(** *** Output keys *)

Definition getOutputKeyByFileName (fileName compilationOutput : string) : string :=
  let relativeOutputPath := path_relative compilationOutput (to options) in
  path_join relativeOutputPath fileName.

Definition getOutputKey (liquidSourcePath compilationOutput : string) : string :=
  let fileName := path_relative (from_liquid options) liquidSourcePath in
  getOutputKeyByFileName fileName compilationOutput.

(** *** [replaceSchemaTags] *)

Definition load_error (match_ importableFilePath fileLocation : string) : thrown :=
  ThrownString (join LF
    [match_; "^";
     "      File to import not found or unreadable: " +:+ importableFilePath;
     "      in " +:+ fileLocation]).

Definition type_error (schema : value) (resolved : string) : thrown :=
  ThrownString (join LF
    [join_item schema; "^";
     "      Schema expected to be of type " +:+ dquote +:+ "object" +:+ dquote;
     "      in " +:+ resolved]).

Definition not_iterable : thrown :=
  ThrownError "TypeError" "object null is not iterable (cannot read property Symbol(Symbol.iterator))".

Definition no_replace : thrown :=
  ThrownError "TypeError" "Cannot read properties of undefined (reading 'replace')".

Definition replaceSchemaTags (fileLocation : string) : M RawSource :=
  let fileName := path_basename fileLocation ".liquid" in
  let* fileContents := lift (fs_readFile fileLocation) in
  let fileContainsReplaceableSchemaRegex := test replaceableSchemaRegex fileContents in
  if negb fileContainsReplaceableSchemaRegex then
    ret {| _value := fileContents |}
  else
    match exec replaceableSchemaRegex fileContents with
    | None => throw not_iterable
    | Some m =>
        let match_ := m_text m in
        let contents := group m 3 in
        match group m 1 with
        | None => throw no_replace
        | Some importableFilePath =>
            let importableFilePath := replace_regex_g importableFilePath quotesRegex "" in
            let importableFilePath := path_resolve (from_schema options) importableFilePath in
            let* resolved := lift (require_resolve importableFilePath) in
            modify (add_fileDependency resolved);;
            let* importedSchema :=
              try_catch (require importableFilePath)
                (λ error, throw (load_error match_ importableFilePath fileLocation)) in
            let contents :=
              match JSON_parse_opt contents with
              | Ok parsed => parsed
              | Throw error => JNull
              end in
            let* schema :=
              match importedSchema with
              | VFun _ importedSchema_call =>
                  modify (log_call {| callee := resolved; arg_name := fileName;
                                      arg_contents := contents |});;
                  lift (importedSchema_call fileName contents)
              | _ => ret importedSchema
              end in
            if negb (is_object_type (typeof schema)) then
              let* resolved := lift (require_resolve importableFilePath) in
              throw (type_error schema resolved)
            else
              ret {| _value :=
                       replace_regex fileContents replaceableSchemaRegex
                         (asString ["{% schema %}";
                                    JSON_stringify schema 4;
                                    "{% endschema %}"]) |}
        end
    end.

(** *** The duplicate directive *)

Definition getDuplicateRules (fileContents : string) : result json :=
  match exec getDuplicateRules_regex fileContents with
  | Some m =>
      match group m 1 with
      | Some body =>
          if negb (String.eqb body "") then JSON_parse body else Ok (JStr "")
      | None => JSON_parse_opt None
      end
  | None => Ok (JStr "")
  end.

Definition cleanDupicateTag (fileContents : RawSource) : RawSource :=
  {| _value := replace_regex (_value fileContents) cleanDupicateTag_regex "" |}.

Definition placeholder : string := "-{{title_section}}-".

Definition no_forEach : thrown :=
  ThrownError "TypeError" "duplicateRules.forEach is not a function".

(** [duplicatedFiles] writes into the asset list it is given and returns it;
    [fileLocation] is the name the method gives to its first parameter,
    which receives the output path of the compilation. *)
Definition duplicatedFiles (fileLocation : string) (duplicateRules : json)
    (fileContent : RawSource) (assetList : gmap string string)
    : result (gmap string string) :=
  if truthy duplicateRules then
    match duplicateRules with
    | JArr names =>
        Ok (foldl (λ assetList newFileName,
                     let newFileName := to_string (of_json newFileName) in
                     let outputKey :=
                       getOutputKeyByFileName (newFileName +:+ ".liquid") fileLocation in
                     <[outputKey :=
                         replace_string (_value fileContent) placeholder newFileName]>
                       assetList)
                  assetList names)
    | _ => Throw no_forEach
    end
  else Ok assetList.

(** *** [buildSchema] *)

(** The body of the [try] block, for one file. *)
Definition transform (fileLocation outputKey compilationOutput : string) : M unit :=
  let* outputFile := replaceSchemaTags fileLocation in
  let* duplicateRules := lift (getDuplicateRules (_value outputFile)) in
  if truthy duplicateRules then
    let outputFile := cleanDupicateTag outputFile in
    let* assetList := gets assets in
    let* assetList :=
      lift (duplicatedFiles compilationOutput duplicateRules outputFile assetList) in
    modify (set_assets (λ _, assetList))
  else
    modify (set_assets (insert outputKey (_value outputFile))).

(** The async function mapped over the directory entries. *)
Definition processFile (file : string) : M unit :=
  let compilationOutput := outputPath options in
  let fileLocation := path_resolve (from_liquid options) file in
  let* fileStat := lift (fs_stat fileLocation) in
  if isFile fileStat && String.eqb (path_extname file) ".liquid" then
    let relativeFilePath := path_relative (context options) fileLocation in
    let outputKey := getOutputKey fileLocation compilationOutput in
    try_catch (transform fileLocation outputKey compilationOutput)
      (λ error,
         modify (push_error
                   ("./" +:+ relativeFilePath +:+ LF +:+ LF +:+ thrown_to_string error)))
  else ret tt.

(** The callback of [.then]: what entered [require.cache] during the
    batch is recorded as a dependency and removed from the cache. *)
Definition evict (module : string) (st : state) : state :=
  set_require_cache (delete module)
    (add_fileDependency module
       (add_contextDependency (path_dirname module) st)).

Definition forget_new_modules (preTransformCache : list string) : M unit :=
  let* postTransformCache := gets (λ st, elements (dom (require_cache st))) in
  modify (λ st,
    foldl (λ st module, evict module st) st
      (filter (λ module, module ∉ preTransformCache) postTransformCache)).

Definition buildSchema : M unit :=
  let* files := lift (fs_readdir (from_liquid options)) in
  modify (add_contextDependency (from_liquid options));;
  modify (add_contextDependency (from_schema options));;
  let* preTransformCache := gets (λ st, elements (dom (require_cache st))) in
  promise_all (map processFile files);;
  forget_new_modules preTransformCache.

(** *** Names used in the statements

    What [processFile] and [replaceSchemaTags] compute on the way: the
    absolute path of a directory entry, its natural output key, the entry
    pushed on [compilation.errors], the path handed to [require], the
    inline override, the outcome of [require], the schema a module stands
    for, and the rewritten content. *)

Definition location (file : string) : string :=
  path_resolve (from_liquid options) file.

Definition natural_key (file : string) : string :=
  getOutputKey (location file) (outputPath options).

Definition error_entry (file : string) (e : thrown) : string :=
  "./" +:+ path_relative (context options) (location file)
  +:+ LF +:+ LF +:+ thrown_to_string e.

Definition importable (literal : string) : string :=
  path_resolve (from_schema options) (replace_regex_g literal quotesRegex "").

Definition inline_override (m : match_result) : json :=
  match JSON_parse_opt (group m 3) with
  | Ok parsed => parsed
  | Throw _ => JNull
  end.

Definition module_outcome (cache : gmap string value) (filename : string)
    : result value :=
  match cache !! filename with
  | Some exports => Ok exports
  | None => loaded_exports (module_load filename)
  end.

Definition effective_schema (imported : value) (fileName : string)
    (contents : json) : result value :=
  match imported with
  | VFun _ f => f fileName contents
  | _ => Ok imported
  end.

Definition rewritten (content : string) (schema : value) : RawSource :=
  {| _value :=
       replace_regex content replaceableSchemaRegex
         (asString ["{% schema %}"; JSON_stringify schema 4; "{% endschema %}"]) |}.

(** The key and the content of the variant of a target name, and the asset
    map once the variants of [targets] have been written into it. *)
Definition variant_key (name : string) : string :=
  getOutputKeyByFileName (name +:+ ".liquid") (outputPath options).

Definition variant (template name : string) : string :=
  replace_string template placeholder name.

Definition with_variants (template : string) (targets : list string)
    (assetList : gmap string string) : gmap string string :=
  foldl (λ assetList name, <[variant_key name := variant template name]> assetList)
    assetList targets.

(** The compilation as the files of a batch find it, and as they leave it
    to the callback of [.then]. *)
Definition batch_start (st : state) : state :=
  add_contextDependency (from_schema options)
    (add_contextDependency (from_liquid options) st).

Definition processed (files : list string) (st : state) : state :=
  (promise_all (map processFile files) (batch_start st)).2.

(** The entries [processFile] works on: regular files named [*.liquid]
    ([false] also when [fs.stat] rejects). *)
Definition eligible (file : string) : bool :=
  match fs_stat (location file) with
  | Ok fileStat => isFile fileStat && String.eqb (path_extname file) ".liquid"
  | Throw _ => false
  end.

(** The two characters that can open and close the path of a schema
    directive. *)
Definition is_quote (q : ascii) : Prop := q = "'"%char ∨ q = "034"%char.

(** What the first entry whose [fs.stat] rejects is rejected with. *)
Fixpoint first_rejection (files : list string) : option thrown :=
  match files with
  | [] => None
  | file :: rest =>
      match fs_stat (location file) with
      | Throw e => Some e
      | Ok _ => first_rejection rest
      end
  end.

End LiquidSchemaPlugin.

(** ** A concrete host

    A small file system with POSIX paths, a table of module files, and
    [JSON] for integers, strings without escapes, arrays and objects.  It
    is what the definitions above are evaluated on. *)

Module Demo.

(** *** [path], for absolute, normalised POSIX paths *)

Fixpoint split_on (sep : ascii) (s : string) : list string :=
  match s with
  | EmptyString => [""]
  | String a rest =>
      if Ascii.eqb a sep then "" :: split_on sep rest
      else match split_on sep rest with
           | seg :: segs => String a seg :: segs
           | [] => [String a ""]
           end
  end.

Definition segments (p : string) : list string :=
  filter (λ seg, seg ≠ "" ∧ seg ≠ ".") (split_on "/" p).

Definition is_absolute (p : string) : bool := String.prefix "/" p.

Definition of_segments (absolute : bool) (segs : list string) : string :=
  match absolute, segs with
  | true, _ => "/" +:+ join "/" segs
  | false, [] => "."
  | false, _ => join "/" segs
  end.

Definition resolve (dir p : string) : string :=
  if is_absolute p then of_segments true (segments p)
  else of_segments true (segments dir ++ segments p).

Fixpoint drop_common (a b : list string) : list string * list string :=
  match a, b with
  | x :: a', y :: b' => if String.eqb x y then drop_common a' b' else (a, b)
  | _, _ => (a, b)
  end.

Definition relative (from to : string) : string :=
  let (up, down) := drop_common (segments from) (segments to) in
  join "/" (map (λ _, "..") up ++ down).

Definition join_paths (a b : string) : string :=
  of_segments (is_absolute a || (String.eqb a "" && is_absolute b))
    (segments a ++ segments b).

Definition last_segment (p : string) : string :=
  default "" (last (segments p)).

Fixpoint ends_with (suffix s : string) : bool :=
  String.eqb suffix s
  || match s with
     | String _ rest => ends_with suffix rest
     | EmptyString => false
     end.

Definition basename (p ext : string) : string :=
  let base := last_segment p in
  if ends_with ext base && negb (String.eqb ext base)
  then String.substring 0 (String.length base - String.length ext) base
  else base.

(** The extension starts at the last dot of the last segment, unless that
    dot is its first character. *)
Fixpoint after_last_dot (s : string) : option string :=
  match s with
  | EmptyString => None
  | String a rest =>
      match after_last_dot rest with
      | Some ext => Some ext
      | None => if Ascii.eqb a "." then Some s else None
      end
  end.

Definition extname (p : string) : string :=
  match last_segment p with
  | String a rest => default "" (after_last_dot rest)
  | EmptyString => ""
  end.

Definition dirname (p : string) : string :=
  let segs := segments p in
  of_segments (is_absolute p) (take (length segs - 1) segs).

(** *** The disk *)

Inductive entry :=
| File (content : string)
| Directory.

(** [entries] are the files and directories by absolute path; [dangling]
    are names a directory lists without a file behind them (a link whose
    target is gone); [modules] are the module files, by resolved name. *)
Record disk := {
  entries : list (string * entry);
  dangling : list string;
  modules : list (string * load_outcome)
}.

Fixpoint assoc {A} (k : string) (l : list (string * A)) : option A :=
  match l with
  | [] => None
  | (k', v) :: rest => if String.eqb k k' then Some v else assoc k rest
  end.

Definition enoent (call p : string) : thrown :=
  ThrownError "Error" ("ENOENT: no such file or directory, " +:+ call +:+ " '" +:+ p +:+ "'").

Definition readdir (d : disk) (dir : string) : result (list string) :=
  match assoc dir (entries d) with
  | Some Directory =>
      Ok (map last_segment
            (filter (λ p, dirname p = dir) ((entries d).*1 ++ dangling d)%list))
  | Some (File _) =>
      Throw (ThrownError "Error" ("ENOTDIR: not a directory, scandir '" +:+ dir +:+ "'"))
  | None => Throw (enoent "scandir" dir)
  end.

Definition stat (d : disk) (p : string) : result stats :=
  match assoc p (entries d) with
  | Some (File _) => Ok {| isFile := true |}
  | Some Directory => Ok {| isFile := false |}
  | None => Throw (enoent "stat" p)
  end.

Definition readFile (d : disk) (p : string) : result string :=
  match assoc p (entries d) with
  | Some (File content) => Ok content
  | Some Directory =>
      Throw (ThrownError "Error" "EISDIR: illegal operation on a directory, read")
  | None => Throw (enoent "open" p)
  end.

(** *** Modules *)

Definition candidates (p : string) : list string :=
  [p; p +:+ ".js"; p +:+ ".json"; p +:+ ".node";
   p +:+ "/index.js"; p +:+ "/index.json"; p +:+ "/index.node"].

Definition module_not_found (p : string) : thrown :=
  ThrownError "Error" ("Cannot find module '" +:+ p +:+ "'").

Definition resolve_module (d : disk) (p : string) : result string :=
  match filter (λ f, is_Some (assoc f (modules d))) (candidates p) with
  | f :: _ => Ok f
  | [] => Throw (module_not_found p)
  end.

Definition load (d : disk) (filename : string) : load_outcome :=
  default {| loaded_exports := Throw (module_not_found filename);
             loaded_children := [] |}
          (assoc filename (modules d)).

(** *** [JSON] *)

Definition syntax_error : thrown :=
  ThrownError "SyntaxError" "Unexpected token in JSON".

Definition is_json_white (a : ascii) : bool :=
  let n := nat_of_ascii a in
  ((n =? 9) || (n =? 10) || (n =? 13) || (n =? 32))%nat.

Fixpoint skip_white (s : string) : string :=
  match s with
  | String a rest => if is_json_white a then skip_white rest else s
  | EmptyString => s
  end.

(** The characters of a string literal after its opening quote, and what
    follows its closing quote; escapes are not read. *)
Fixpoint string_body (s : string) : option (string * string) :=
  match s with
  | EmptyString => None
  | String a rest =>
      if Ascii.eqb a "034" then Some ("", rest)
      else if Ascii.eqb a "092" || (nat_of_ascii a <? 32)%nat then None
      else match string_body rest with
           | Some (body, rest') => Some (String a body, rest')
           | None => None
           end
  end.

Fixpoint digits (acc : Z) (s : string) : Z * string :=
  match s with
  | String a rest =>
      if is_digit a then digits (10 * acc + Z.of_nat (digit a)) rest
      else (acc, s)
  | EmptyString => (acc, s)
  end.

(** An integer without a leading zero, fraction or exponent. *)
Definition natural (s : string) : option (Z * string) :=
  match s with
  | String a rest =>
      if negb (is_digit a) then None
      else if Ascii.eqb a "0" then
        match rest with
        | String b _ =>
            if is_digit b || Ascii.eqb b "." || Ascii.eqb b "e" || Ascii.eqb b "E"
            then None else Some (0%Z, rest)
        | EmptyString => Some (0%Z, rest)
        end
      else
        let (n, rest') := digits 0 s in
        match rest' with
        | String b _ =>
            if Ascii.eqb b "." || Ascii.eqb b "e" || Ascii.eqb b "E"
            then None else Some (n, rest')
        | EmptyString => Some (n, rest')
        end
  | EmptyString => None
  end.

(** [item] then [,] and more items, or [close]. *)
Fixpoint items {A} (item : string → option (A * string)) (close : ascii)
    (fuel : nat) (s : string) : option (list A * string) :=
  match fuel with
  | 0 => None
  | S fuel' =>
      match item s with
      | Some (x, rest) =>
          match skip_white rest with
          | String c rest' =>
              if Ascii.eqb c "," then
                match items item close fuel' rest' with
                | Some (xs, rest'') => Some (x :: xs, rest'')
                | None => None
                end
              else if Ascii.eqb c close then Some ([x], rest')
              else None
          | EmptyString => None
          end
      | None => None
      end
  end.

Definition keyword (word : string) (j : json) (s : string) : option (json * string) :=
  if String.prefix word s then Some (j, drop_str (String.length word) s) else None.

Fixpoint parse_value (fuel : nat) (s : string) : option (json * string) :=
  match fuel with
  | 0 => None
  | S fuel' =>
      match skip_white s with
      | EmptyString => None
      | String a rest as s1 =>
          if Ascii.eqb a "n" then keyword "null" JNull s1
          else if Ascii.eqb a "t" then keyword "true" (JBool true) s1
          else if Ascii.eqb a "f" then keyword "false" (JBool false) s1
          else if Ascii.eqb a "034" then
            match string_body rest with
            | Some (body, rest') => Some (JStr body, rest')
            | None => None
            end
          else if Ascii.eqb a "-" then
            match natural rest with
            | Some (n, rest') => Some (JNum (- n), rest')
            | None => None
            end
          else if is_digit a then
            match natural s1 with
            | Some (n, rest') => Some (JNum n, rest')
            | None => None
            end
          else if Ascii.eqb a "[" then
            match skip_white rest with
            | String "]" rest' => Some (JArr [], rest')
            | _ =>
                match items (parse_value fuel') "]" fuel' rest with
                | Some (l, rest') => Some (JArr l, rest')
                | None => None
                end
            end
          else if Ascii.eqb a "{" then
            match skip_white rest with
            | String "}" rest' => Some (JObj [], rest')
            | _ =>
                match items
                        (λ s2, match skip_white s2 with
                               | String q s3 =>
                                   if Ascii.eqb q "034" then
                                     match string_body s3 with
                                     | Some (key, s4) =>
                                         match skip_white s4 with
                                         | String ":" s5 =>
                                             match parse_value fuel' s5 with
                                             | Some (v, s6) => Some ((key, v), s6)
                                             | None => None
                                             end
                                         | _ => None
                                         end
                                     | None => None
                                     end
                                   else None
                               | EmptyString => None
                               end)
                        "}" fuel' rest with
                | Some (fs, rest') => Some (JObj fs, rest')
                | None => None
                end
            end
          else None
      end
  end.

Definition parse (text : string) : result json :=
  match parse_value (S (String.length text)) text with
  | Some (j, rest) =>
      match skip_white rest with
      | EmptyString => Ok j
      | String _ _ => Throw syntax_error
      end
  | None => Throw syntax_error
  end.

Fixpoint spaces (n : nat) : string :=
  match n with
  | 0 => ""
  | S n' => String " " (spaces n')
  end.

Fixpoint escape (s : string) : string :=
  match s with
  | EmptyString => ""
  | String a rest =>
      if Ascii.eqb a "034" || Ascii.eqb a "092"
      then String "092" (String a (escape rest))
      else String a (escape rest)
  end.

Definition quoted (s : string) : string := dquote +:+ escape s +:+ dquote.

(** [None] is [undefined]: what a function or [undefined] serialises to. *)
Fixpoint stringify_at (indent depth : nat) (v : value) : option string :=
  let pad := LF +:+ spaces (indent * S depth) in
  let close := LF +:+ spaces (indent * depth) in
  match v with
  | VUndefined | VFun _ _ => None
  | VNull => Some "null"
  | VBool true => Some "true"
  | VBool false => Some "false"
  | VNum n => Some (number_to_string n)
  | VStr s => Some (quoted s)
  | VArr [] => Some "[]"
  | VArr l =>
      Some ("[" +:+ pad
            +:+ join ("," +:+ pad)
                  (map (λ x, default "null" (stringify_at indent (S depth) x)) l)
            +:+ close +:+ "]")
  | VObj fs =>
      match omap (λ kv, match stringify_at indent (S depth) kv.2 with
                        | Some text => Some (quoted kv.1 +:+ ": " +:+ text)
                        | None => None
                        end) fs with
      | [] => Some "{}"
      | members =>
          Some ("{" +:+ pad +:+ join ("," +:+ pad) members +:+ close +:+ "}")
      end
  end.

Definition stringify (v : value) (indent : nat) : string :=
  default "" (stringify_at indent 0 v).

(** *** The host over a disk *)

Definition host (d : disk) : Host := {|
  path_resolve := resolve;
  path_relative := relative;
  path_join := join_paths;
  path_basename := basename;
  path_extname := extname;
  path_dirname := dirname;
  fs_readdir := readdir d;
  fs_stat := stat d;
  fs_readFile := readFile d;
  require_resolve := resolve_module d;
  module_load := load d;
  JSON_parse := parse;
  JSON_stringify := stringify
|}.

(** The options of the examples. *)
Definition options : config := {|
  from_liquid := "/shop/src/sections";
  from_schema := "/shop/src/schema";
  to := "/shop/dist/sections";
  outputPath := "/shop/dist";
  context := "/shop"
|}.

Definition start : state := {|
  assets := ∅; errors := [];
  fileDependencies := ∅; contextDependencies := ∅;
  require_cache := ∅; calls := []
|}.

(** *** The disks of the examples *)

Definition hero_liquid : string :=
  "<h1>Hero</h1>" +:+ LF +:+ "{% schema 'hero' %}" +:+ LF.

Definition cards_liquid : string :=
  "{% duplicate %}[" +:+ quoted "red" +:+ "," +:+ quoted "blue"
  +:+ "]{% endduplicate %}" +:+ LF +:+ LF
  +:+ "<p>-{{title_section}}-</p>"
  +:+ "{% schema 'cards.js' %}{" +:+ quoted "max" +:+ ":3}{% endschema %}".

Definition tight_liquid : string :=
  "{% duplicate %}[" +:+ quoted "green" +:+ "]{% endduplicate %}<p>tight</p>".

Definition empty_liquid : string :=
  "{% duplicate %}{% endduplicate %}" +:+ LF +:+ LF +:+ "<p>empty</p>".

Definition leaf (exports : result value) : load_outcome :=
  {| loaded_exports := exports; loaded_children := [] |}.

(** The function [cards.js] exports. *)
Definition cards_schema (name : string) (contents : json) : result value :=
  Ok (VObj [("name", VStr name); ("settings", of_json contents)]).

Definition shop_modules : list (string * load_outcome) :=
  [("/shop/src/schema/hero.js",
    {| loaded_exports := Ok (VObj [("name", VStr "Hero")]);
       loaded_children := [("/shop/src/schema/parts/common.js", VObj [])] |});
   ("/shop/src/schema/cards.js", leaf (Ok (VFun "function cards" cards_schema)));
   ("/shop/src/schema/count.json", leaf (Ok (VNum 5)));
   ("/shop/src/schema/list.json", leaf (Ok (VArr [VNum 5])));
   ("/shop/src/schema/broken.js",
    leaf (Throw (ThrownError "ReferenceError" "settings is not defined")))].

Definition shop : disk := {|
  entries :=
    [("/shop/src/sections", Directory);
     ("/shop/src/sections/hero.liquid", File hero_liquid);
     ("/shop/src/sections/count.liquid", File "{% schema 'count' %}");
     ("/shop/src/sections/cards.liquid", File cards_liquid);
     ("/shop/src/sections/list.liquid", File "{% schema 'list' %}");
     ("/shop/src/sections/lost.liquid", File "{% schema 'missing' %}");
     ("/shop/src/sections/broken.liquid", File "{% schema 'broken' %}");
     ("/shop/src/sections/tight.liquid", File tight_liquid);
     ("/shop/src/sections/empty.liquid", File empty_liquid);
     ("/shop/src/sections/plain.liquid", File "<p>plain</p>");
     ("/shop/src/sections/notes.txt", File "notes");
     ("/shop/src/sections/snippets", Directory)];
  dangling := [];
  modules := shop_modules
|}.

(** The same sections directory with one section and a link whose target
    is gone; the schema of the section lies in a directory of its own. *)
Definition shop_with_dead_link : disk := {|
  entries :=
    [("/shop/src/sections", Directory);
     ("/shop/src/sections/hero.liquid", File "{% schema 'parts/hero' %}")];
  dangling := ["/shop/src/sections/old.liquid"];
  modules :=
    [("/shop/src/schema/parts/hero.js", leaf (Ok (VObj [("name", VStr "Hero")])))]
|}.

(** A project whose sections directory does not exist. *)
Definition shop_without_sections : disk := {|
  entries := [("/shop/src", Directory)];
  dangling := [];
  modules := []
|}.

(** [cards.liquid] once its schema directive has been resolved, and the
    match of the schema expression in it. *)
Definition cards_resolved : RawSource :=
  @rewritten (host shop) cards_liquid
    (VObj [("name", VStr "cards"); ("settings", VObj [("max", VNum 3)])]).

Definition cards_match : match_result :=
  default {| m_index := 0; m_end := 0; m_text := ""; m_groups := [] |}
          (exec replaceableSchemaRegex cards_liquid).

(** The three hosts. *)
Definition shop_host : Host := host shop.
Definition dead_link_host : Host := host shop_with_dead_link.
Definition no_sections_host : Host := host shop_without_sections.

(** *** More disks: duplicate rules of every kind, a file that cannot be
    read, a directory without sections *)

Definition garbled_liquid : string :=
  "{% duplicate %}oops{% endduplicate %}<p>garbled</p>".

Definition keyed_liquid : string :=
  "{% duplicate %}{}{% endduplicate %}<p>keyed</p>".

Definition null_liquid : string :=
  "{% duplicate %}null{% endduplicate %}<p>null</p>".

Definition none_liquid : string :=
  "{% duplicate %}[]{% endduplicate %}<p>none</p>".

(** A schema function that throws. *)
Definition faulty_schema (name : string) (contents : json) : result value :=
  Throw (ThrownError "RangeError" "too many blocks").

Definition bench : disk := {|
  entries :=
    [("/shop/src/sections", Directory);
     ("/shop/src/sections/garbled.liquid", File garbled_liquid);
     ("/shop/src/sections/keyed.liquid", File keyed_liquid);
     ("/shop/src/sections/null.liquid", File null_liquid);
     ("/shop/src/sections/none.liquid", File none_liquid);
     ("/shop/src/sections/faulty.liquid", File "{% schema 'faulty' %}");
     ("/shop/src/sections/secret.liquid", File "<p>secret</p>")];
  dangling := [];
  modules :=
    [("/shop/src/schema/faulty.js",
      leaf (Ok (VFun "function faulty" faulty_schema)))]
|}.

Definition eacces (p : string) : thrown :=
  ThrownError "Error" ("EACCES: permission denied, open '" +:+ p +:+ "'").

(** The host over a disk some files of which cannot be read. *)
Definition locking (d : disk) (locked : list string) : Host := {|
  path_resolve := resolve;
  path_relative := relative;
  path_join := join_paths;
  path_basename := basename;
  path_extname := extname;
  path_dirname := dirname;
  fs_readdir := readdir d;
  fs_stat := stat d;
  fs_readFile := λ p, if bool_decide (p ∈ locked) then Throw (eacces p)
                      else readFile d p;
  require_resolve := resolve_module d;
  module_load := load d;
  JSON_parse := parse;
  JSON_stringify := stringify
|}.

Definition bench_host : Host :=
  locking bench ["/shop/src/sections/secret.liquid"].

Definition notes_only : disk := {|
  entries :=
    [("/shop/src/sections", Directory);
     ("/shop/src/sections/notes.txt", File "notes");
     ("/shop/src/sections/snippets", Directory)];
  dangling := [];
  modules := []
|}.

Definition notes_host : Host := host notes_only.

(** The match of the schema expression in [hero.liquid], the one of the
    expression of [cleanDupicateTag] in the resolved [cards.liquid], and
    the schema [hero.js] exports. *)
Definition no_match : match_result :=
  {| m_index := 0; m_end := 0; m_text := ""; m_groups := [] |}.

Definition hero_match : match_result :=
  default no_match (exec replaceableSchemaRegex hero_liquid).

Definition cards_block : match_result :=
  default no_match (exec cleanDupicateTag_regex (_value cards_resolved)).

Definition hero_schema : value := VObj [("name", VStr "Hero")].

(** What [fs.readdir] gives for the sections of [shop]. *)
Definition shop_listing : list string :=
  ["hero.liquid"; "count.liquid"; "cards.liquid"; "list.liquid";
   "lost.liquid"; "broken.liquid"; "tight.liquid"; "empty.liquid";
   "plain.liquid"; "notes.txt"; "snippets"].

End Demo.

(** ** Properties *)

Section Properties.

Context {HOST : Host}.
Variable options : config.

Open Scope js_scope.
Open Scope list_scope.

Local Abbreviation location := (location options).
Local Abbreviation natural_key := (natural_key options).
Local Abbreviation error_entry := (error_entry options).
Local Abbreviation importable := (importable options).
Local Abbreviation variant_key := (variant_key options).
Local Abbreviation with_variants := (with_variants options).
Local Abbreviation batch_start := (batch_start options).
Local Abbreviation processed := (processed options).

Ltac unfold_monad :=
  unfold bind, lift, gets, modify, ret, throw, try_catch in *.

(** *** What the methods leave alone *)

Lemma require_frame p st r st' :
  require p st = (r, st') →
  assets st' = assets st ∧ errors st' = errors st ∧
  fileDependencies st' = fileDependencies st ∧
  contextDependencies st' = contextDependencies st ∧ calls st' = calls st.
Proof.
  unfold require. unfold_monad. intros Heq.
  repeat case_match; simplify_eq/=; done.
Qed.

Ltac use_require_frame :=
  repeat match goal with
  | Hr : require _ _ = _ |- _ =>
      apply require_frame in Hr; simpl in Hr; destruct Hr as (? & ? & ? & ? & ?)
  end.

Lemma replaceSchemaTags_frame loc st r st' :
  replaceSchemaTags options loc st = (r, st') →
  assets st' = assets st ∧ errors st' = errors st ∧
  contextDependencies st' = contextDependencies st.
Proof.
  unfold replaceSchemaTags. unfold_monad. intros Heq.
  repeat case_match; simplify_eq/=; use_require_frame; done.
Qed.

Lemma transform_frame loc key out st r st' :
  transform options loc key out st = (r, st') →
  errors st' = errors st ∧
  contextDependencies st' = contextDependencies st ∧
  (∀ e, r = Throw e → assets st' = assets st).
Proof.
  unfold transform. unfold_monad. intros Heq.
  repeat case_match; simplify_eq/=;
    repeat match goal with
    | Hr : replaceSchemaTags _ _ _ = _ |- _ =>
        apply replaceSchemaTags_frame in Hr; destruct Hr as (? & ? & ?)
    end; repeat split; try done.
Qed.

Lemma processFile_contextDependencies file st :
  contextDependencies (processFile options file st).2 = contextDependencies st.
Proof.
  unfold processFile. unfold_monad.
  repeat case_match; simplify_eq/=; try done;
    match goal with
    | Hr : transform _ _ _ _ _ = _ |- _ =>
        apply transform_frame in Hr; destruct Hr as (? & ? & ?)
    end; done.
Qed.

Lemma promise_all_cons (m : M unit) (rest : list (M unit)) st :
  (promise_all (m :: rest) st).2 = (promise_all rest (m st).2).2.
Proof.
  simpl. destruct (m st) as [r st1]. simpl.
  by destruct (promise_all rest st1).
Qed.

Lemma promise_all_app (l1 l2 : list (M unit)) st :
  (promise_all (l1 ++ l2) st).2 = (promise_all l2 (promise_all l1 st).2).2.
Proof.
  revert st. induction l1 as [|m l1 IH]; intros st.
  - done.
  - rewrite <- app_comm_cons, !promise_all_cons. apply IH.
Qed.

(** *** The dependencies of the build *)

Lemma promise_all_contextDependencies files st :
  contextDependencies (promise_all (map (processFile options) files) st).2
  = contextDependencies st.
Proof.
  revert st. induction files as [|f files IH]; intros st.
  - done.
  - rewrite map_cons, promise_all_cons, IH.
    apply processFile_contextDependencies.
Qed.

Lemma evict_all_fileDependencies l st :
  fileDependencies (foldl (λ st module, evict module st) st l)
  = list_to_set l ∪ fileDependencies st.
Proof.
  revert st. induction l as [|m l IH]; intros st; simpl.
  - set_solver.
  - rewrite IH. simpl. set_solver.
Qed.

Lemma evict_all_contextDependencies l st :
  contextDependencies (foldl (λ st module, evict module st) st l)
  = list_to_set (map path_dirname l) ∪ contextDependencies st.
Proof.
  revert st. induction l as [|m l IH]; intros st; simpl.
  - set_solver.
  - rewrite IH. simpl. set_solver.
Qed.

Lemma evict_all_require_cache l st module :
  require_cache (foldl (λ st module, evict module st) st l) !! module
  = if decide (module ∈ l) then None else require_cache st !! module.
Proof.
  revert st. induction l as [|m l IH]; intros st; cbn [foldl].
  - rewrite decide_False; [done | apply not_elem_of_nil].
  - rewrite IH. cbn [evict set_require_cache require_cache].
    destruct (decide (module = m)) as [->|Hne].
    + rewrite lookup_delete_eq, (decide_True (P := m ∈ m :: l)) by left.
      by case_decide.
    + rewrite lookup_delete_ne by done.
      destruct (decide (module ∈ l)) as [Hin|Hin].
      * rewrite decide_True; [done | by right].
      * rewrite decide_False; [done|]. by intros [?|?]%elem_of_cons.
Qed.

Lemma buildSchema_run st files :
  fs_readdir (from_liquid options) = Ok files →
  buildSchema options st
  = (let* _ := promise_all (map (processFile options) files) in
     forget_new_modules (elements (dom (require_cache st)))) (batch_start st).
Proof. intros Hdir. unfold buildSchema. unfold_monad. by rewrite Hdir. Qed.

Lemma forget_new_modules_contextDependencies pre st :
  contextDependencies st ⊆ contextDependencies (forget_new_modules pre st).2.
Proof.
  unfold forget_new_modules. unfold_monad. simpl.
  rewrite evict_all_contextDependencies. set_solver.
Qed.

(** C10, amended.  On every invocation of [buildSchema] in which the
    listing of the source directory succeeds, [from.liquid] and
    [from.schema] are in the context dependencies before any file is
    processed (the files are processed from [batch_start]) and when the
    batch ends, whatever the directory contains. *)
Theorem buildSchema_context_dependencies st files :
  fs_readdir (from_liquid options) = Ok files →
  buildSchema options st
  = (let* _ := promise_all (map (processFile options) files) in
     forget_new_modules (elements (dom (require_cache st)))) (batch_start st)
  ∧ {[from_liquid options; from_schema options]}
      ⊆ contextDependencies (batch_start st)
  ∧ {[from_liquid options; from_schema options]}
      ⊆ contextDependencies (buildSchema options st).2.
Proof.
  intros Hdir. split; [by apply buildSchema_run|]. split.
  - simpl. set_solver.
  - rewrite (buildSchema_run _ _ Hdir). unfold bind.
    pose proof (promise_all_contextDependencies files (batch_start st)) as Hctx.
    destruct (promise_all _ _) as [[[]|e] st1]; simpl in *.
    + pose proof (forget_new_modules_contextDependencies
                    (elements (dom (require_cache st))) st1). set_solver.
    + rewrite Hctx. set_solver.
Qed.

(** C9, amended.  In every batch that is fulfilled, every module that is in
    [require.cache] once the files have been processed and was not there
    when the batch began is a file dependency, its directory is a context
    dependency, and it has left the cache when the batch ends: the next
    [require] of it loads the file again. *)
Theorem buildSchema_forgets_new_modules st st' files :
  fs_readdir (from_liquid options) = Ok files →
  buildSchema options st = (Ok tt, st') →
  ∀ module,
    module ∈ dom (require_cache (processed files st)) →
    module ∉ dom (require_cache st) →
    module ∈ fileDependencies st'
    ∧ path_dirname module ∈ contextDependencies st'
    ∧ require_cache st' !! module = None
    ∧ ∀ p, require_resolve p = Ok module →
           (require p st').1 = loaded_exports (module_load module).
Proof.
  intros Hdir Hrun module Hpost Hpre.
  rewrite (buildSchema_run _ _ Hdir) in Hrun. unfold processed in Hpost.
  unfold bind in Hrun.
  destruct (promise_all _ _) as [[[]|e] st1]; simpl in *; [|done].
  unfold forget_new_modules in Hrun. unfold_monad. simplify_eq.
  set (fresh := filter _ _).
  assert (module ∈ fresh) as Hfresh.
  { apply list_elem_of_filter. split.
    - by rewrite elem_of_elements.
    - by rewrite elem_of_elements. }
  assert (require_cache (foldl (λ st module, evict module st) st1 fresh) !! module = None)
    as Hgone.
  { rewrite evict_all_require_cache. by rewrite decide_True. }
  repeat split.
  - rewrite evict_all_fileDependencies. set_solver.
  - rewrite evict_all_contextDependencies. set_solver.
  - done.
  - intros p Hp. unfold require. unfold_monad. rewrite Hp, Hgone.
    by destruct (loaded_exports (module_load module)).
Qed.

(** *** One file *)

Lemma require_run p filename st :
  require_resolve p = Ok filename →
  ∃ st', require p st = (module_outcome (require_cache st) filename, st')
         ∧ assets st' = assets st ∧ errors st' = errors st
         ∧ calls st' = calls st.
Proof.
  intros Hp. unfold require, module_outcome. unfold_monad. rewrite Hp.
  destruct (require_cache st !! filename); [by eexists|].
  destruct (loaded_exports (module_load filename)); by eexists.
Qed.

Lemma processFile_eligible file st stats :
  fs_stat (location file) = Ok stats →
  isFile stats = true →
  path_extname file = ".liquid" →
  processFile options file st
  = try_catch
      (transform options (location file) (natural_key file) (outputPath options))
      (λ error, modify (push_error (error_entry file error))) st.
Proof.
  intros Hstat Hfile Hext. unfold processFile. unfold_monad.
  fold (location file). by rewrite Hstat, Hfile, Hext.
Qed.

Lemma replaceSchemaTags_directive loc st content m literal resolved :
  fs_readFile loc = Ok content →
  exec replaceableSchemaRegex content = Some m →
  group m 1 = Some literal →
  require_resolve (importable literal) = Ok resolved →
  replaceSchemaTags options loc st
  = (let* importedSchema :=
       try_catch (require (importable literal))
         (λ _, throw (load_error (m_text m) (importable literal) loc)) in
     let* schema :=
       match importedSchema with
       | VFun _ f =>
           modify (log_call {| callee := resolved;
                               arg_name := path_basename loc ".liquid";
                               arg_contents := inline_override m |});;
           lift (f (path_basename loc ".liquid") (inline_override m))
       | _ => ret importedSchema
       end in
     if negb (is_object_type (typeof schema))
     then throw (type_error schema resolved)
     else ret (rewritten content schema)) (add_fileDependency resolved st).
Proof.
  intros Hread Hexec Hlit Hres. unfold replaceSchemaTags, test.
  unfold_monad. rewrite Hread, Hexec. simpl. rewrite Hlit.
  fold (importable literal). rewrite Hres.
  destruct (require _ _) as [[imported|e] st1]; [|done].
  fold (inline_override m).
  destruct imported; simpl; done.
Qed.

(** C7.  In every batch, an error raised while a file is resolved or
    expanded is caught: the file's function still returns normally, the
    error is appended to [compilation.errors] behind the path of the file
    relative to the project, the assets and the errors recorded so far are
    as they were, and the files that follow are processed from that state.
    A file whose pipeline does not throw adds no error. *)
Theorem processFile_isolates_errors l1 file l2 st stats :
  fs_readdir (from_liquid options) = Ok (l1 ++ file :: l2) →
  fs_stat (location file) = Ok stats →
  isFile stats = true →
  path_extname file = ".liquid" →
  let st1 := processed l1 st in
  match transform options (location file) (natural_key file)
          (outputPath options) st1 with
  | (Ok _, st2) =>
      processFile options file st1 = (Ok tt, st2)
      ∧ errors st2 = errors st1
  | (Throw e, st2) =>
      processFile options file st1 = (Ok tt, push_error (error_entry file e) st2)
      ∧ errors (push_error (error_entry file e) st2)
        = errors st1 ++ [error_entry file e]
      ∧ assets (push_error (error_entry file e) st2) = assets st1
  end
  ∧ processed (l1 ++ file :: l2) st
    = (promise_all (map (processFile options) l2)
         (processFile options file st1).2).2.
Proof.
  intros _ Hstat Hfile Hext st1. split.
  - rewrite (processFile_eligible _ _ _ Hstat Hfile Hext). unfold try_catch.
    destruct (transform _ _ _ _ st1) as [[[]|e] st2] eqn:Hrun;
      apply transform_frame in Hrun; destruct Hrun as (Herr & _ & Hassets).
    + done.
    + unfold modify. simpl. rewrite Herr, (Hassets e) by done. done.
  - unfold processed, st1, processed.
    by rewrite map_app, promise_all_app, map_cons, promise_all_cons.
Qed.

(** C1, amended.  When the effective schema of a processed file is of a
    type other than "object" (a number, a string, a boolean, [undefined]
    or a function), [replaceSchemaTags] throws the message that carries
    the value, the caret, the expected type and the resolved module file;
    the batch records exactly one error for the file, made of its relative
    path and that message, adds no asset, and goes on with the other
    files. *)
Theorem schema_type_error file rest st stats content m literal resolved
    imported schema :
  fs_stat (location file) = Ok stats →
  isFile stats = true →
  path_extname file = ".liquid" →
  fs_readFile (location file) = Ok content →
  exec replaceableSchemaRegex content = Some m →
  group m 1 = Some literal →
  require_resolve (importable literal) = Ok resolved →
  module_outcome (require_cache st) resolved = Ok imported →
  effective_schema imported (path_basename (location file) ".liquid")
    (inline_override m) = Ok schema →
  is_object_type (typeof schema) = false →
  (replaceSchemaTags options (location file) st).1
  = Throw (type_error schema resolved)
  ∧ ∃ st',
      processFile options file st = (Ok tt, st')
      ∧ errors st' = errors st ++ [error_entry file (type_error schema resolved)]
      ∧ assets st' = assets st
      ∧ (promise_all (map (processFile options) (file :: rest)) st).2
        = (promise_all (map (processFile options) rest) st').2.
Proof.
  intros Hstat Hfile Hext Hread Hexec Hlit Hres Hout Heff Htype.
  assert (∃ st1, replaceSchemaTags options (location file) st
                 = (Throw (type_error schema resolved), st1)
                 ∧ assets st1 = assets st ∧ errors st1 = errors st)
    as (st1 & Hrun & Hassets & Herrors).
  { rewrite (replaceSchemaTags_directive _ _ _ _ _ _ Hread Hexec Hlit Hres).
    unfold_monad.
    destruct (require_run _ _ (add_fileDependency resolved st) Hres)
      as (st1 & -> & Ha & He & _).
    simpl in *. rewrite Hout.
    destruct imported; simpl in *; simplify_eq; simpl;
      try (eexists; split; [reflexivity | by split]).
    rewrite Heff, Htype. simpl.
    eexists; split; [reflexivity | by split]. }
  split; [by rewrite Hrun|].
  assert (processFile options file st
          = (Ok tt, push_error (error_entry file (type_error schema resolved)) st1))
    as Hfile_run.
  { rewrite (processFile_eligible _ _ _ Hstat Hfile Hext).
    unfold try_catch, transform, bind. by rewrite Hrun. }
  eexists. split; [exact Hfile_run|].
  split; [simpl; by rewrite Herrors|]. split; [simpl; by rewrite Hassets|].
  by rewrite map_cons, promise_all_cons, Hfile_run.
Qed.

(** C8.  When the module of a schema directive loads to a function,
    [replaceSchemaTags] calls it exactly once, with the base name of the
    file without [.liquid] and with the inline body parsed as JSON, [null]
    when there is no body or when it is not JSON; what the function
    returns is the effective schema, checked and serialised as it is. *)
Theorem generator_called_once loc st content m literal resolved src f :
  fs_readFile loc = Ok content →
  exec replaceableSchemaRegex content = Some m →
  group m 1 = Some literal →
  require_resolve (importable literal) = Ok resolved →
  module_outcome (require_cache st) resolved = Ok (VFun src f) →
  let fileName := path_basename loc ".liquid" in
  let contents :=
    match group m 3 with
    | Some body =>
        match JSON_parse body with
        | Ok parsed => parsed
        | Throw _ => JNull
        end
    | None => JNull
    end in
  calls (replaceSchemaTags options loc st).2
  = calls st ++ [{| callee := resolved; arg_name := fileName;
                    arg_contents := contents |}]
  ∧ (replaceSchemaTags options loc st).1
    = match f fileName contents with
      | Ok schema =>
          if is_object_type (typeof schema)
          then Ok (rewritten content schema)
          else Throw (type_error schema resolved)
      | Throw e => Throw e
      end.
Proof.
  intros Hread Hexec Hlit Hres Hout fileName contents.
  rewrite (replaceSchemaTags_directive _ _ _ _ _ _ Hread Hexec Hlit Hres).
  unfold_monad.
  destruct (require_run _ _ (add_fileDependency resolved st) Hres)
    as (st1 & -> & _ & _ & Hcalls).
  simpl in *. rewrite Hout. simpl.
  assert (inline_override m = contents) as ->.
  { unfold inline_override, contents, JSON_parse_opt.
    by destruct (group m 3). }
  fold fileName.
  destruct (f fileName contents) as [schema|e]; simpl.
  - destruct (is_object_type (typeof schema)); simpl; by rewrite Hcalls.
  - by rewrite Hcalls.
Qed.

(** *** The duplicate directive *)

Lemma duplicatedFiles_names fileContent assetList targets :
  duplicatedFiles options (outputPath options) (JArr (map JStr targets))
    fileContent assetList
  = Ok (with_variants (_value fileContent) targets assetList).
Proof.
  unfold duplicatedFiles, with_variants. simpl. f_equal.
  revert assetList. induction targets as [|name targets IH]; intros assetList.
  - done.
  - simpl. apply IH.
Qed.

Lemma with_variants_other template targets assetList k :
  (∀ name, name ∈ targets → k ≠ variant_key name) →
  with_variants template targets assetList !! k = assetList !! k.
Proof.
  unfold with_variants. revert assetList.
  induction targets as [|name targets IH]; intros assetList Hk; simpl.
  - done.
  - rewrite IH by (intros n Hn; apply Hk; by right).
    apply lookup_insert_ne. intros Heq. by apply (Hk name); [left|].
Qed.

Lemma with_variants_keeps template targets assetList k :
  is_Some (assetList !! k) →
  is_Some (with_variants template targets assetList !! k).
Proof.
  unfold with_variants. revert assetList.
  induction targets as [|name targets IH]; intros assetList Hk; simpl.
  - done.
  - apply IH. destruct (decide (variant_key name = k)) as [<-|Hne].
    + rewrite lookup_insert_eq. by eexists.
    + by rewrite lookup_insert_ne.
Qed.

Lemma with_variants_written template targets assetList name :
  name ∈ targets →
  is_Some (with_variants template targets assetList !! variant_key name).
Proof.
  unfold with_variants. revert assetList.
  induction targets as [|n targets IH]; intros assetList Hin; simpl.
  - by apply elem_of_nil in Hin.
  - apply elem_of_cons in Hin as [->|Hin].
    + apply with_variants_keeps. rewrite lookup_insert_eq. by eexists.
    + by apply IH.
Qed.

(** C3.  When the body of the duplicate directive of a processed file
    parses to an array of target names, the file adds to the asset map one
    asset for each name, under [getOutputKeyByFileName] of the name
    followed by [.liquid] (the mapping of the natural key, applied to that
    file name), and writes nothing else: every other key, the natural key
    of the file among them, keeps what it had. *)
Theorem duplicate_variants file st stats out st1 m body targets :
  fs_stat (location file) = Ok stats →
  isFile stats = true →
  path_extname file = ".liquid" →
  replaceSchemaTags options (location file) st = (Ok out, st1) →
  exec getDuplicateRules_regex (_value out) = Some m →
  group m 1 = Some body →
  body ≠ "" →
  JSON_parse body = Ok (JArr (map JStr targets)) →
  ∃ st',
    processFile options file st = (Ok tt, st')
    ∧ errors st' = errors st
    ∧ assets st'
      = with_variants (_value (cleanDupicateTag out)) targets (assets st)
    ∧ (∀ name, name ∈ targets → is_Some (assets st' !! variant_key name))
    ∧ (∀ k, (∀ name, name ∈ targets → k ≠ variant_key name) →
            assets st' !! k = assets st !! k)
    ∧ natural_key file
      = path_join (path_relative (outputPath options) (to options))
          (path_relative (from_liquid options) (location file))
    ∧ (∀ name, variant_key name
               = path_join (path_relative (outputPath options) (to options))
                   (name +:+ ".liquid")).
Proof.
  intros Hstat Hfile Hext Hrun Hexec Hbody Hne Hparse.
  pose proof (replaceSchemaTags_frame _ _ _ _ Hrun) as (Hassets & Herrors & _).
  assert (getDuplicateRules (_value out) = Ok (JArr (map JStr targets))) as Hrules.
  { unfold getDuplicateRules. rewrite Hexec, Hbody.
    apply String.eqb_neq in Hne. by rewrite Hne. }
  eexists. split.
  { rewrite (processFile_eligible _ _ _ Hstat Hfile Hext).
    unfold try_catch, transform. unfold_monad. rewrite Hrun, Hrules.
    cbn -[duplicatedFiles]. rewrite duplicatedFiles_names. reflexivity. }
  simpl. rewrite Hassets, Herrors. repeat split.
  - intros name Hin. by apply with_variants_written.
  - intros k Hk. by apply with_variants_other.
Qed.

(** C6, amended.  When the body of the duplicate directive of a processed
    file is the empty string, the file is handled as a file without the
    directive: one asset is written, under the natural key of the file,
    and its content is the resolved content as it is, in which the
    duplicate directive is still present. *)
Theorem empty_duplicate_directive file st stats out st1 m :
  fs_stat (location file) = Ok stats →
  isFile stats = true →
  path_extname file = ".liquid" →
  replaceSchemaTags options (location file) st = (Ok out, st1) →
  exec getDuplicateRules_regex (_value out) = Some m →
  group m 1 = Some "" →
  ∃ st',
    processFile options file st = (Ok tt, st')
    ∧ errors st' = errors st
    ∧ assets st' = <[natural_key file := _value out]> (assets st)
    ∧ test getDuplicateRules_regex (_value out) = true.
Proof.
  intros Hstat Hfile Hext Hrun Hexec Hbody.
  pose proof (replaceSchemaTags_frame _ _ _ _ Hrun) as (Hassets & Herrors & _).
  eexists. split.
  { rewrite (processFile_eligible _ _ _ Hstat Hfile Hext).
    unfold try_catch, transform, getDuplicateRules. unfold_monad.
    rewrite Hrun, Hexec, Hbody. simpl. reflexivity. }
  simpl. rewrite Hassets, Herrors. repeat split.
  unfold test. by rewrite Hexec.
Qed.

(** A file without the directive takes the same path. *)
Lemma no_duplicate_directive file st stats out st1 :
  fs_stat (location file) = Ok stats →
  isFile stats = true →
  path_extname file = ".liquid" →
  replaceSchemaTags options (location file) st = (Ok out, st1) →
  exec getDuplicateRules_regex (_value out) = None →
  ∃ st',
    processFile options file st = (Ok tt, st')
    ∧ errors st' = errors st
    ∧ assets st' = <[natural_key file := _value out]> (assets st).
Proof.
  intros Hstat Hfile Hext Hrun Hexec.
  pose proof (replaceSchemaTags_frame _ _ _ _ Hrun) as (Hassets & Herrors & _).
  eexists. split.
  { rewrite (processFile_eligible _ _ _ Hstat Hfile Hext).
    unfold try_catch, transform, getDuplicateRules. unfold_monad.
    rewrite Hrun, Hexec. simpl. reflexivity. }
  simpl. by rewrite Hassets, Herrors.
Qed.

(** *** Where the module is looked up *)

(** [require.resolve] is called before the [try] block that guards
    [require]: what it throws leaves [replaceSchemaTags] as it is. *)
Lemma replaceSchemaTags_unresolved loc st content m literal e :
  fs_readFile loc = Ok content →
  exec replaceableSchemaRegex content = Some m →
  group m 1 = Some literal →
  require_resolve (importable literal) = Throw e →
  replaceSchemaTags options loc st = (Throw e, st).
Proof.
  intros Hread Hexec Hlit Hres. unfold replaceSchemaTags, test.
  unfold_monad. rewrite Hread, Hexec. simpl. rewrite Hlit.
  fold (importable literal). by rewrite Hres.
Qed.

(** A module that is found and throws while it loads gives the message of
    the plugin. *)
Lemma replaceSchemaTags_load_error loc st content m literal resolved e :
  fs_readFile loc = Ok content →
  exec replaceableSchemaRegex content = Some m →
  group m 1 = Some literal →
  require_resolve (importable literal) = Ok resolved →
  module_outcome (require_cache st) resolved = Throw e →
  (replaceSchemaTags options loc st).1
  = Throw (load_error (m_text m) (importable literal) loc).
Proof.
  intros Hread Hexec Hlit Hres Hout.
  rewrite (replaceSchemaTags_directive _ _ _ _ _ _ Hread Hexec Hlit Hres).
  unfold_monad.
  destruct (require_run _ _ (add_fileDependency resolved st) Hres)
    as (st1 & -> & _).
  simpl in *. by rewrite Hout.
Qed.

End Properties.

(** ** The theorems at work, and where the code parts from its description *)

Section Shop.

#[local] Existing Instance Demo.shop_host.

Open Scope list_scope.

Local Abbreviation options := Demo.options.
Local Abbreviation start := Demo.start.

(** C7 on the shop: [count.liquid] fails after [hero.liquid] went
    through, and the nine entries behind it are processed. *)
Lemma processFile_isolates_errors_witness :
  let st1 := processed options ["hero.liquid"] start in
  match transform options (location options "count.liquid")
          (natural_key options "count.liquid") (outputPath options) st1 with
  | (Ok _, st2) =>
      processFile options "count.liquid" st1 = (Ok tt, st2)
      ∧ errors st2 = errors st1
  | (Throw e, st2) =>
      processFile options "count.liquid" st1
      = (Ok tt, push_error (error_entry options "count.liquid" e) st2)
      ∧ errors (push_error (error_entry options "count.liquid" e) st2)
        = errors st1 ++ [error_entry options "count.liquid" e]
      ∧ assets (push_error (error_entry options "count.liquid" e) st2) = assets st1
  end
  ∧ processed options
      (["hero.liquid"] ++ "count.liquid"
       :: ["cards.liquid"; "list.liquid"; "lost.liquid"; "broken.liquid";
           "tight.liquid"; "empty.liquid"; "plain.liquid"; "notes.txt";
           "snippets"]) start
    = (promise_all
         (map (processFile options)
            ["cards.liquid"; "list.liquid"; "lost.liquid"; "broken.liquid";
             "tight.liquid"; "empty.liquid"; "plain.liquid"; "notes.txt";
             "snippets"])
         (processFile options "count.liquid" st1).2).2.
Proof.
  apply (processFile_isolates_errors options ["hero.liquid"] "count.liquid"
           ["cards.liquid"; "list.liquid"; "lost.liquid"; "broken.liquid";
            "tight.liquid"; "empty.liquid"; "plain.liquid"; "notes.txt";
            "snippets"] start {| isFile := true |});
    reflexivity.
Defined.

(** C1, amended, on [count.liquid], whose schema is the number 5. *)
Lemma schema_type_error_witness :
  (replaceSchemaTags options (location options "count.liquid") start).1
  = Throw (type_error (VNum 5) "/shop/src/schema/count.json")
  ∧ ∃ st',
      processFile options "count.liquid" start = (Ok tt, st')
      ∧ errors st'
        = errors start
          ++ [error_entry options "count.liquid"
                (type_error (VNum 5) "/shop/src/schema/count.json")]
      ∧ assets st' = assets start
      ∧ (promise_all (map (processFile options) ("count.liquid" :: ["plain.liquid"]))
           start).2
        = (promise_all (map (processFile options) ["plain.liquid"]) st').2.
Proof.
  apply (schema_type_error options "count.liquid" ["plain.liquid"] start
           {| isFile := true |} "{% schema 'count' %}"
           {| m_index := 0; m_end := 20; m_text := "{% schema 'count' %}";
              m_groups := [Some "'count'"; None; None] |}
           "'count'" "/shop/src/schema/count.json" (VNum 5) (VNum 5));
    reflexivity.
Defined.

(** C1 as stated fails on an array: [list.json] holds [[5]], which is not
    a mapping, and [list.liquid] gives no error and one asset. *)
Lemma array_schema_is_emitted :
  module_outcome ∅ "/shop/src/schema/list.json" = Ok (VArr [VNum 5])
  ∧ errors (processFile options "list.liquid" start).2 = []
  ∧ assets (processFile options "list.liquid" start).2
    = {[ "sections/list.liquid" :=
           "{% schema %}" +:+ LF +:+ "[" +:+ LF +:+ "    5" +:+ LF +:+ "]"
           +:+ LF +:+ "{% endschema %}" ]}.
Proof. repeat split; vm_compute; reflexivity. Qed.

(** C2.  [lost.liquid] names a module that does not exist:
    [require.resolve] throws before the guarded [require] is reached, and
    the error of the batch is the one of the host, without the directive
    and the caret of the message of the plugin. *)
Lemma missing_module_skips_load_error :
  replaceSchemaTags options (location options "lost.liquid") start
  = (Throw (ThrownError "Error" "Cannot find module '/shop/src/schema/missing'"),
     start)
  ∧ errors (processFile options "lost.liquid" start).2
    = ["./src/sections/lost.liquid" +:+ LF +:+ LF
       +:+ "Error: Cannot find module '/shop/src/schema/missing'"]
  ∧ errors (processFile options "lost.liquid" start).2
    ≠ [error_entry options "lost.liquid"
         (load_error "{% schema 'missing' %}" "/shop/src/schema/missing"
            (location options "lost.liquid"))].
Proof. repeat split; try (vm_compute; reflexivity). by vm_compute. Qed.

(** A module that is found and throws while loading does get the message
    of the plugin. *)
Lemma throwing_module_gives_load_error :
  errors (processFile options "broken.liquid" start).2
  = [error_entry options "broken.liquid"
       (load_error "{% schema 'broken' %}" "/shop/src/schema/broken"
          (location options "broken.liquid"))].
Proof. vm_compute. reflexivity. Qed.

(** C3 on [cards.liquid] and its targets [red] and [blue]. *)
Lemma duplicate_variants_witness :
  ∃ st',
    processFile options "cards.liquid" start = (Ok tt, st')
    ∧ errors st' = errors start
    ∧ assets st'
      = with_variants options (_value (cleanDupicateTag Demo.cards_resolved))
          ["red"; "blue"] (assets start)
    ∧ (∀ name, name ∈ ["red"; "blue"] →
               is_Some (assets st' !! variant_key options name))
    ∧ (∀ k, (∀ name, name ∈ ["red"; "blue"] → k ≠ variant_key options name) →
            assets st' !! k = assets start !! k)
    ∧ natural_key options "cards.liquid"
      = path_join (path_relative (outputPath options) (to options))
          (path_relative (from_liquid options) (location options "cards.liquid"))
    ∧ (∀ name, variant_key options name
               = path_join (path_relative (outputPath options) (to options))
                   (name +:+ ".liquid")).
Proof.
  eapply (duplicate_variants options "cards.liquid" start {| isFile := true |}
            Demo.cards_resolved
            (replaceSchemaTags options (location options "cards.liquid") start).2
            _ _ ["red"; "blue"]).
  - reflexivity.
  - reflexivity.
  - reflexivity.
  - vm_compute. reflexivity.
  - vm_compute. reflexivity.
  - reflexivity.
  - discriminate.
  - reflexivity.
Defined.

(** C4.  Two placeholders in the template: the variant has the first one
    replaced and keeps the second. *)
Lemma placeholder_replaced_once :
  duplicatedFiles options (outputPath options) (JArr [JStr "red"])
    {| _value := "<h2>-{{title_section}}-</h2><p>-{{title_section}}-</p>" |} ∅
  = Ok {[ "sections/red.liquid" := "<h2>red</h2><p>-{{title_section}}-</p>" ]}.
Proof. vm_compute. reflexivity. Qed.

(** C5.  No blank line after [endduplicate] in [tight.liquid]: the rules
    are read, the directive is not removed, and the variant carries it. *)
Lemma directive_without_blank_line_stays :
  getDuplicateRules Demo.tight_liquid = Ok (JArr [JStr "green"])
  ∧ cleanDupicateTag {| _value := Demo.tight_liquid |}
    = {| _value := Demo.tight_liquid |}
  ∧ assets (processFile options "tight.liquid" start).2
    = {[ "sections/green.liquid" := Demo.tight_liquid ]}
  ∧ test getDuplicateRules_regex Demo.tight_liquid = true.
Proof. repeat split; vm_compute; reflexivity. Qed.

(** C6, amended, on [empty.liquid]. *)
Lemma empty_duplicate_directive_witness :
  ∃ st',
    processFile options "empty.liquid" start = (Ok tt, st')
    ∧ errors st' = errors start
    ∧ assets st'
      = <[natural_key options "empty.liquid" := Demo.empty_liquid]> (assets start)
    ∧ test getDuplicateRules_regex Demo.empty_liquid = true.
Proof.
  eapply (empty_duplicate_directive options "empty.liquid" start
            {| isFile := true |} {| _value := Demo.empty_liquid |} start);
    [reflexivity .. | vm_compute; reflexivity | reflexivity].
Defined.

(** C6 as stated fails on [empty.liquid]: the body of its duplicate
    directive is the empty string, and the one asset emitted for it still
    holds the directive. *)
Lemma empty_directive_is_emitted :
  (∃ m, exec getDuplicateRules_regex Demo.empty_liquid = Some m
        ∧ group m 1 = Some "")
  ∧ assets (processFile options "empty.liquid" start).2
    = {[ "sections/empty.liquid" := Demo.empty_liquid ]}
  ∧ test getDuplicateRules_regex Demo.empty_liquid = true
  ∧ String.prefix "{% duplicate %}{% endduplicate %}" Demo.empty_liquid = true.
Proof.
  split; [eexists; split; vm_compute; reflexivity|].
  repeat split; vm_compute; reflexivity.
Qed.

(** C8 on [cards.liquid], whose schema module exports a function. *)
Lemma generator_called_once_witness :
  let fileName := path_basename (location options "cards.liquid") ".liquid" in
  let contents :=
    match group Demo.cards_match 3 with
    | Some body =>
        match JSON_parse body with
        | Ok parsed => parsed
        | Throw _ => JNull
        end
    | None => JNull
    end in
  calls (replaceSchemaTags options (location options "cards.liquid") start).2
  = calls start ++ [{| callee := "/shop/src/schema/cards.js";
                       arg_name := fileName; arg_contents := contents |}]
  ∧ (replaceSchemaTags options (location options "cards.liquid") start).1
    = match Demo.cards_schema fileName contents with
      | Ok schema =>
          if is_object_type (typeof schema)
          then Ok (rewritten Demo.cards_liquid schema)
          else Throw (type_error schema "/shop/src/schema/cards.js")
      | Throw e => Throw e
      end.
Proof.
  apply (generator_called_once options (location options "cards.liquid") start
           Demo.cards_liquid Demo.cards_match "'cards.js'"
           "/shop/src/schema/cards.js" "function cards" Demo.cards_schema);
    reflexivity.
Defined.

(** The call of [cards.js] in full. *)
Lemma generator_called_once_example :
  calls (replaceSchemaTags options (location options "cards.liquid") start).2
  = [{| callee := "/shop/src/schema/cards.js"; arg_name := "cards";
        arg_contents := JObj [("max", JNum 3)] |}].
Proof. vm_compute. reflexivity. Qed.

(** C10, amended, on the shop. *)
Lemma buildSchema_context_dependencies_witness :
  buildSchema options start
  = bind (promise_all
            (map (processFile options)
               ["hero.liquid"; "count.liquid"; "cards.liquid"; "list.liquid";
                "lost.liquid"; "broken.liquid"; "tight.liquid"; "empty.liquid";
                "plain.liquid"; "notes.txt"; "snippets"]))
      (λ _, forget_new_modules (elements (dom (require_cache start))))
      (batch_start options start)
  ∧ {[from_liquid options; from_schema options]}
      ⊆ contextDependencies (batch_start options start)
  ∧ {[from_liquid options; from_schema options]}
      ⊆ contextDependencies (buildSchema options start).2.
Proof.
  apply (buildSchema_context_dependencies options start). reflexivity.
Defined.

(** C9, amended, on the shop: [common.js] entered the cache when
    [hero.js] was loaded. *)
Lemma buildSchema_forgets_new_modules_witness :
  "/shop/src/schema/parts/common.js"
    ∈ fileDependencies (buildSchema options start).2
  ∧ "/shop/src/schema/parts"
    ∈ contextDependencies (buildSchema options start).2
  ∧ require_cache (buildSchema options start).2
      !! "/shop/src/schema/parts/common.js" = None.
Proof.
  assert (fs_readdir (from_liquid options)
          = Ok ["hero.liquid"; "count.liquid"; "cards.liquid"; "list.liquid";
                "lost.liquid"; "broken.liquid"; "tight.liquid"; "empty.liquid";
                "plain.liquid"; "notes.txt"; "snippets"]) as Hlisting
    by reflexivity.
  assert (buildSchema options start = (Ok tt, (buildSchema options start).2))
    as Hrun by (vm_compute; reflexivity).
  destruct (buildSchema_forgets_new_modules options start
              (buildSchema options start).2 _ Hlisting Hrun
              "/shop/src/schema/parts/common.js")
    as (Hfile & Hdir & Hgone & _).
  - apply (bool_decide_unpack _). vm_compute. exact I.
  - apply (bool_decide_unpack _). vm_compute. exact I.
  - exact (conj Hfile (conj Hdir Hgone)).
Defined.

End Shop.

Section DeadLink.

#[local] Existing Instance Demo.dead_link_host.

Open Scope list_scope.

Local Abbreviation options := Demo.options.
Local Abbreviation start := Demo.start.

(** C9 as stated fails on a batch that is rejected: the [stat] of
    [old.liquid] throws, the callback of [.then] does not run, and the
    module loaded for [hero.liquid] stays in the cache, its directory
    unrecorded. *)
Lemma rejected_batch_keeps_modules :
  fs_readdir (from_liquid options) = Ok ["hero.liquid"; "old.liquid"]
  ∧ (buildSchema options start).1
    = Throw (Demo.enoent "stat" "/shop/src/sections/old.liquid")
  ∧ "/shop/src/schema/parts/hero.js"
    ∈ dom (require_cache (processed options ["hero.liquid"; "old.liquid"] start))
  ∧ ("/shop/src/schema/parts/hero.js" ∉ dom (require_cache start))
  ∧ is_Some (require_cache (buildSchema options start).2
               !! "/shop/src/schema/parts/hero.js")
  ∧ (path_dirname "/shop/src/schema/parts/hero.js"
     ∉ contextDependencies (buildSchema options start).2).
Proof.
  split; [reflexivity|]. split; [vm_compute; reflexivity|].
  split; [apply (bool_decide_unpack _); vm_compute; exact I|].
  split; [apply (bool_decide_unpack _); vm_compute; exact I|].
  split; [apply (bool_decide_unpack _); vm_compute; exact I|].
  apply (bool_decide_unpack _); vm_compute; exact I.
Qed.

End DeadLink.

Section NoSections.

#[local] Existing Instance Demo.no_sections_host.

Local Abbreviation options := Demo.options.
Local Abbreviation start := Demo.start.

(** C10 as stated fails on an invocation whose directory listing throws:
    [buildSchema] is left before the two directories are added. *)
Lemma unlisted_directory_adds_nothing :
  buildSchema options start
  = (Throw (Demo.enoent "scandir" "/shop/src/sections"), start)
  ∧ contextDependencies (buildSchema options start).2 = ∅.
Proof. split; vm_compute; reflexivity. Qed.

End NoSections.

(** ** The batch as a whole *)

Section Batch.

Context {HOST : Host}.
Variable options : config.

Open Scope js_scope.
Open Scope list_scope.

Local Abbreviation location := (location options).
Local Abbreviation batch_start := (batch_start options).
Local Abbreviation processed := (processed options).

Ltac run_monad :=
  unfold bind, lift, gets, modify, ret, throw, try_catch in *.

(** *** One entry *)

Lemma processFile_outcome file st :
  (processFile options file st).1
  = match fs_stat (location file) with
    | Ok _ => Ok tt
    | Throw e => Throw e
    end.
Proof.
  unfold processFile. run_monad. fold (location file).
  destruct (fs_stat (location file)) as [fileStat|e]; [|done].
  destruct (isFile fileStat && _); [|done].
  by destruct (transform _ _ _ _ _) as [[[]|e] st1].
Qed.

Lemma processFile_not_eligible file st fileStat :
  fs_stat (location file) = Ok fileStat →
  eligible options file = false →
  processFile options file st = (Ok tt, st).
Proof.
  intros Hstat. unfold eligible, processFile. run_monad.
  fold (location file). rewrite Hstat. by intros ->.
Qed.

Lemma processFile_rejected file st e :
  fs_stat (location file) = Throw e →
  processFile options file st = (Throw e, st).
Proof.
  intros Hstat. unfold processFile. run_monad.
  fold (location file). by rewrite Hstat.
Qed.

(** *** [Promise.all] *)

Lemma promise_all_outcome files st :
  (promise_all (map (processFile options) files) st).1
  = match first_rejection options files with
    | Some e => Throw e
    | None => Ok tt
    end.
Proof.
  revert st. induction files as [|file files IH]; intros st; [done|].
  cbn [map promise_all first_rejection].
  pose proof (processFile_outcome file st) as Hfile.
  destruct (processFile options file st) as [r st1]. simpl in Hfile.
  specialize (IH st1). destruct (promise_all _ st1) as [rs st2].
  simpl in *. fold (location file).
  destruct (fs_stat (location file)); by subst.
Qed.



(** X2.  When the listing and the [fs.stat] of every entry succeed, the
    batch is fulfilled, whatever the files hold. *)
Theorem buildSchema_fulfilled st files :
  fs_readdir (from_liquid options) = Ok files →
  first_rejection options files = None →
  (buildSchema options st).1 = Ok tt.
Proof.
  intros Hdir Hrej. rewrite (buildSchema_run _ _ _ Hdir). unfold bind.
  pose proof (promise_all_outcome files (batch_start st)) as Hout.
  rewrite Hrej in Hout.
  destruct (promise_all _ _) as [r st1]. simpl in *. by subst.
Qed.

(** X3.  Entries that are not regular [.liquid] files leave no trace: the
    batch over a listing is the batch over its eligible entries. *)
Theorem promise_all_skips_other_entries files st :
  first_rejection options files = None →
  promise_all (map (processFile options) files) st
  = promise_all (map (processFile options)
                   (filter (λ file, eligible options file) files)) st.
Proof.
  revert st. induction files as [|file files IH]; intros st Hrej; [done|].
  cbn [first_rejection] in Hrej. fold (location file) in Hrej.
  destruct (fs_stat (location file)) as [fileStat|] eqn:Hstat; [|done].
  rewrite filter_cons. destruct (eligible options file) eqn:Hel.
  - rewrite decide_True by done. cbn [map promise_all].
    destruct (processFile options file st) as [r st1]. by rewrite IH.
  - rewrite decide_False by (by intros []).
    cbn [map promise_all].
    rewrite (processFile_not_eligible _ _ _ Hstat Hel), IH by done.
    by destruct (promise_all _ st) as [[[]|] ?].
Qed.

(** *** What a batch keeps *)

Lemma require_keeps_cache p st m v :
  require_cache st !! m = Some v →
  require_cache (require p st).2 !! m = Some v.
Proof.
  intros Hm. unfold require. run_monad.
  destruct (require_resolve p) as [filename|]; [|done]. simpl.
  destruct (require_cache st !! filename) eqn:Hcached; [done|].
  assert ((require_cache st ∪ list_to_map (loaded_children (module_load filename)))
            !! m = Some v) as Hunion by by apply lookup_union_Some_l.
  destruct (loaded_exports (module_load filename)); simpl; [|done].
  rewrite lookup_insert_ne; [done|]. intros ->. congruence.
Qed.

Lemma require_fileDependencies p st :
  fileDependencies (require p st).2 = fileDependencies st.
Proof.
  destruct (require p st) as [r st'] eqn:Hrun.
  by apply require_frame in Hrun as (_ & _ & ? & _).
Qed.

Lemma replaceSchemaTags_grows loc st :
  fileDependencies st ⊆ fileDependencies (replaceSchemaTags options loc st).2
  ∧ ∀ m v, require_cache st !! m = Some v →
           require_cache (replaceSchemaTags options loc st).2 !! m = Some v.
Proof.
  unfold replaceSchemaTags. run_monad.
  destruct (fs_readFile loc) as [fileContents|]; [|done]. simpl.
  destruct (negb _); [done|].
  destruct (exec _ _) as [m|]; [|done].
  destruct (group m 1) as [literal|]; [|done].
  destruct (require_resolve _) as [resolved|]; [|done]. simpl.
  set (p := path_resolve _ _). set (st0 := add_fileDependency resolved st).
  pose proof (require_fileDependencies p st0) as Hdeps.
  pose proof (require_keeps_cache p st0) as Hcache.
  assert (fileDependencies st ⊆ fileDependencies st0) as Hst0
    by (simpl; set_solver).
  destruct (require p st0) as [[imported|e] st1]; simpl in *;
    [|split; [set_solver | done]].
  assert (∀ st2 : state,
            fileDependencies st2 = fileDependencies st1 →
            require_cache st2 = require_cache st1 →
            fileDependencies st ⊆ fileDependencies st2
            ∧ ∀ m v, require_cache st !! m = Some v →
                     require_cache st2 !! m = Some v) as Hdone.
  { intros st2 Hf Hc. rewrite Hf, Hc. split; [set_solver | done]. }
  destruct imported as [| |?|?|?|?|?|src f]; simpl;
    try (by apply Hdone).
  destruct (f _ _) as [schema|]; simpl; [|by apply Hdone].
  destruct (negb _); simpl; by apply Hdone.
Qed.

Lemma duplicatedFiles_dom out rules fileContent assetList assetList' :
  duplicatedFiles options out rules fileContent assetList = Ok assetList' →
  dom assetList ⊆ dom assetList'.
Proof.
  unfold duplicatedFiles. destruct (truthy rules); [|by intros [= ->]].
  destruct rules as [| | | |names|]; try done. intros [= <-].
  revert assetList. induction names as [|name names IH]; intros assetList; simpl.
  - done.
  - etrans; [|apply IH]. rewrite dom_insert_L. set_solver.
Qed.

Lemma transform_grows loc key out st :
  dom (assets st) ⊆ dom (assets (transform options loc key out st).2)
  ∧ fileDependencies st ⊆ fileDependencies (transform options loc key out st).2
  ∧ ∀ m v, require_cache st !! m = Some v →
           require_cache (transform options loc key out st).2 !! m = Some v.
Proof.
  unfold transform. run_monad.
  pose proof (replaceSchemaTags_grows loc st) as (Hdeps & Hcache).
  destruct (replaceSchemaTags options loc st) as [[outputFile|e] st1] eqn:Hrun;
    apply replaceSchemaTags_frame in Hrun as (Hassets & _ & _); simpl in *;
    [|by rewrite Hassets].
  destruct (getDuplicateRules _) as [rules|]; simpl; [|by rewrite Hassets].
  destruct (truthy rules); simpl.
  - destruct (duplicatedFiles _ _ _ _ _) as [assetList|] eqn:Hdup; simpl.
    + apply duplicatedFiles_dom in Hdup. by rewrite <- Hassets.
    + by rewrite Hassets.
  - rewrite dom_insert_L, Hassets. split; [set_solver | done].
Qed.

(** What [processFile] does to the compilation and to the cache: assets,
    dependencies and cached modules stay, and at most one error is
    appended, none for an entry that is not eligible. *)
Lemma processFile_grows file st :
  dom (assets st) ⊆ dom (assets (processFile options file st).2)
  ∧ fileDependencies st ⊆ fileDependencies (processFile options file st).2
  ∧ (∀ m v, require_cache st !! m = Some v →
            require_cache (processFile options file st).2 !! m = Some v)
  ∧ ∃ new, errors (processFile options file st).2 = errors st ++ new
           ∧ (length new ≤ (if eligible options file then 1 else 0))%nat.
Proof.
  unfold processFile, eligible. run_monad. fold (location file).
  destruct (fs_stat (location file)) as [fileStat|]; simpl;
    [|repeat split; try done; exists []; by rewrite app_nil_r].
  destruct (isFile fileStat && _); simpl;
    [|repeat split; try done; exists []; by rewrite app_nil_r].
  set (key := getOutputKey _ _ _).
  pose proof (transform_grows (location file) key (outputPath options) st)
    as (Hassets & Hdeps & Hcache).
  destruct (transform _ _ _ _ st) as [[[]|e] st1] eqn:Hrun;
    apply transform_frame in Hrun as (Herrors & _ & _); simpl in *.
  - repeat split; try done. exists []. rewrite app_nil_r. split; [done | simpl; lia].
  - repeat split; try done. rewrite Herrors. by eexists.
Qed.

Lemma promise_all_grows files st :
  let st' := (promise_all (map (processFile options) files) st).2 in
  dom (assets st) ⊆ dom (assets st')
  ∧ fileDependencies st ⊆ fileDependencies st'
  ∧ (∀ m v, require_cache st !! m = Some v → require_cache st' !! m = Some v)
  ∧ ∃ new, errors st' = errors st ++ new
           ∧ (length new
              ≤ length (filter (λ file, eligible options file) files))%nat.
Proof.
  revert st. induction files as [|file files IH]; intros st.
  - simpl. repeat split; try done. exists []. by rewrite app_nil_r.
  - cbn zeta. rewrite map_cons, promise_all_cons.
    destruct (processFile_grows file st) as (Ha & Hd & Hc & new1 & He1 & Hn1).
    destruct (IH (processFile options file st).2)
      as (Ha' & Hd' & Hc' & new2 & He2 & Hn2).
    split; [by etrans|]. split; [by etrans|]. split; [by auto|].
    exists (new1 ++ new2). rewrite He2, He1, <- app_assoc. split; [done|].
    rewrite length_app, filter_cons.
    destruct (eligible options file).
    + rewrite decide_True by done. rewrite length_cons. lia.
    + rewrite decide_False by (by intros []). lia.
Qed.

Lemma evict_all_frame l st :
  assets (foldl (λ st module, evict module st) st l) = assets st
  ∧ errors (foldl (λ st module, evict module st) st l) = errors st.
Proof.
  revert st. induction l as [|m l IH]; intros st; [done|].
  cbn [foldl]. by destruct (IH (evict m st)) as [-> ->].
Qed.

(** X4.  [buildSchema] only adds to the compilation: whatever the outcome,
    the assets that were there keep their keys, the errors recorded so far
    stay at the front of the list, and no dependency is withdrawn. *)
Theorem buildSchema_only_adds st :
  let st' := (buildSchema options st).2 in
  dom (assets st) ⊆ dom (assets st')
  ∧ (∃ new, errors st' = errors st ++ new)
  ∧ fileDependencies st ⊆ fileDependencies st'
  ∧ contextDependencies st ⊆ contextDependencies st'.
Proof.
  cbn zeta. unfold buildSchema. run_monad.
  destruct (fs_readdir _) as [files|]; simpl;
    [|repeat split; try done; exists []; by rewrite app_nil_r].
  set (st0 := add_contextDependency _ _).
  destruct (promise_all_grows files st0) as (Ha & Hd & _ & new & He & _).
  pose proof (promise_all_contextDependencies options files st0) as Hctx.
  destruct (promise_all _ st0) as [[[]|e] st1]; simpl in *.
  - set (fresh := filter _ _).
    destruct (evict_all_frame fresh st1) as [-> ->].
    rewrite evict_all_fileDependencies, evict_all_contextDependencies, Hctx.
    repeat split; [done | by eexists | set_solver | set_solver].
  - rewrite Hctx. repeat split; [done | by eexists | done | set_solver].
Qed.

(** X5.  A batch appends at most one error for each eligible entry of the
    listing. *)
Theorem buildSchema_errors_bound st files :
  fs_readdir (from_liquid options) = Ok files →
  (length (errors (buildSchema options st).2)
   ≤ length (errors st)
     + length (filter (λ file, eligible options file) files))%nat.
Proof.
  intros Hdir. rewrite (buildSchema_run _ _ _ Hdir). unfold bind.
  destruct (promise_all_grows files (batch_start st)) as (_ & _ & _ & new & He & Hn).
  destruct (promise_all _ _) as [[[]|e] st1]; simpl in *.
  - unfold forget_new_modules. run_monad. simpl.
    destruct (evict_all_frame (filter (λ module, module ∉ elements (dom (require_cache st)))
                                 (elements (dom (require_cache st1)))) st1) as [_ ->].
    rewrite He, length_app. lia.
  - rewrite He, length_app. lia.
Qed.

(** X6.  A fulfilled batch leaves [require.cache] exactly as it found it:
    what the batch loaded is evicted, and what was cached before is
    neither evicted nor loaded again. *)
Theorem buildSchema_restores_cache st st' files :
  fs_readdir (from_liquid options) = Ok files →
  buildSchema options st = (Ok tt, st') →
  require_cache st' = require_cache st.
Proof.
  intros Hdir Hrun. rewrite (buildSchema_run _ _ _ Hdir) in Hrun.
  unfold bind in Hrun.
  destruct (promise_all_grows files (batch_start st)) as (_ & _ & Hc & _).
  destruct (promise_all _ _) as [[[]|e] st1]; simpl in *; [|done].
  unfold forget_new_modules in Hrun. run_monad. simplify_eq.
  apply map_eq. intros m. rewrite evict_all_require_cache.
  destruct (require_cache st !! m) as [v|] eqn:Hm.
  - rewrite decide_False; [by apply Hc|].
    intros [Hnew _]%list_elem_of_filter. apply Hnew.
    apply elem_of_elements, elem_of_dom. by eexists.
  - case_decide as Hin; [done|].
    destruct (require_cache st1 !! m) as [v|] eqn:Hm1; [|done].
    exfalso. apply Hin, list_elem_of_filter. split.
    + rewrite elem_of_elements, elem_of_dom. intros [? ?]. congruence.
    + apply elem_of_elements, elem_of_dom. by eexists.
Qed.

End Batch.

(** ** One file, case by case *)

Section Files.

Context {HOST : Host}.
Variable options : config.

Open Scope js_scope.
Open Scope list_scope.

Local Abbreviation location := (location options).
Local Abbreviation natural_key := (natural_key options).
Local Abbreviation error_entry := (error_entry options).
Local Abbreviation importable := (importable options).

Ltac run_monad :=
  unfold bind, lift, gets, modify, ret, throw, try_catch in *.

(** X7.  A regular [.liquid] file with neither directive is emitted as it
    is, under its natural key, and nothing else of the compilation or of
    the module cache changes. *)
Theorem plain_file_passes_through file st fileStat content :
  fs_stat (location file) = Ok fileStat →
  isFile fileStat = true →
  path_extname file = ".liquid" →
  fs_readFile (location file) = Ok content →
  exec replaceableSchemaRegex content = None →
  exec getDuplicateRules_regex content = None →
  processFile options file st
  = (Ok tt, set_assets (insert (natural_key file) content) st).
Proof.
  intros Hstat Hfile Hext Hread Hschema Hdup.
  rewrite (processFile_eligible _ _ _ _ Hstat Hfile Hext).
  unfold transform, replaceSchemaTags, getDuplicateRules, test. run_monad.
  by rewrite Hread, Hschema; simpl; rewrite Hdup.
Qed.

(** X8.  A file that cannot be read gives one error, the one of the host
    behind the relative path of the file, and nothing else. *)
Theorem unreadable_file_is_reported file st fileStat e :
  fs_stat (location file) = Ok fileStat →
  isFile fileStat = true →
  path_extname file = ".liquid" →
  fs_readFile (location file) = Throw e →
  processFile options file st = (Ok tt, push_error (error_entry file e) st).
Proof.
  intros Hstat Hfile Hext Hread.
  rewrite (processFile_eligible _ _ _ _ Hstat Hfile Hext).
  unfold transform, replaceSchemaTags. run_monad. by rewrite Hread.
Qed.

Lemma transform_fileDependencies loc key out st :
  fileDependencies (transform options loc key out st).2
  = fileDependencies (replaceSchemaTags options loc st).2.
Proof.
  unfold transform. run_monad.
  destruct (replaceSchemaTags options loc st) as [[outputFile|] st1]; [|done].
  simpl. destruct (getDuplicateRules _) as [rules|]; [|done]. simpl.
  destruct (truthy rules); [|done]. simpl.
  by destruct (duplicatedFiles _ _ _ _ _).
Qed.

Lemma processFile_fileDependencies file st fileStat :
  fs_stat (location file) = Ok fileStat →
  isFile fileStat = true →
  path_extname file = ".liquid" →
  fileDependencies (processFile options file st).2
  = fileDependencies (replaceSchemaTags options (location file) st).2.
Proof.
  intros Hstat Hfile Hext.
  rewrite (processFile_eligible _ _ _ _ Hstat Hfile Hext). unfold try_catch.
  rewrite <- (transform_fileDependencies _ (natural_key file) (outputPath options)).
  by destruct (transform _ _ _ _ _) as [[[]|] ?].
Qed.

(** X9.  A schema directive whose module resolves adds exactly that module
    file to the file dependencies, whether the file then succeeds or
    fails. *)
Theorem resolved_module_is_a_dependency file st fileStat content m literal
    resolved :
  fs_stat (location file) = Ok fileStat →
  isFile fileStat = true →
  path_extname file = ".liquid" →
  fs_readFile (location file) = Ok content →
  exec replaceableSchemaRegex content = Some m →
  group m 1 = Some literal →
  require_resolve (importable literal) = Ok resolved →
  fileDependencies (processFile options file st).2
  = {[resolved]} ∪ fileDependencies st.
Proof.
  intros Hstat Hfile Hext Hread Hexec Hlit Hres.
  rewrite (processFile_fileDependencies _ _ _ Hstat Hfile Hext).
  rewrite (replaceSchemaTags_directive _ _ _ _ _ _ _ Hread Hexec Hlit Hres).
  run_monad.
  destruct (require (importable literal) (add_fileDependency resolved st))
    as [[imported|] st1] eqn:Hreq;
    apply require_frame in Hreq as (_ & _ & Hdeps & _); simpl in *; [|done].
  destruct imported as [| |?|?|?|?|?|src f]; simpl; try done.
  destruct (f _ _) as [schema|]; simpl; [|done].
  by destruct (negb _).
Qed.

(** X10.  A module that exports anything but a function is used as the
    schema itself and nothing is called: the file is rewritten when the
    export is of type object, and refused with the type message
    otherwise. *)
Theorem plain_export_is_the_schema loc st content m literal resolved imported :
  fs_readFile loc = Ok content →
  exec replaceableSchemaRegex content = Some m →
  group m 1 = Some literal →
  require_resolve (importable literal) = Ok resolved →
  module_outcome (require_cache st) resolved = Ok imported →
  typeof imported ≠ TFunction →
  calls (replaceSchemaTags options loc st).2 = calls st
  ∧ (replaceSchemaTags options loc st).1
    = if is_object_type (typeof imported)
      then Ok (rewritten content imported)
      else Throw (type_error imported resolved).
Proof.
  intros Hread Hexec Hlit Hres Hout Hfun.
  rewrite (replaceSchemaTags_directive _ _ _ _ _ _ _ Hread Hexec Hlit Hres).
  run_monad.
  destruct (require_run _ _ (add_fileDependency resolved st) Hres)
    as (st1 & -> & _ & _ & Hcalls).
  simpl in *. rewrite Hout.
  destruct imported; simpl in *; done.
Qed.

(** X11.  A module that is found but throws while it loads gives the file one
    error, the message of the plugin with the directive, the caret, the
    path that was required and the path of the file; no asset is
    written. *)
Theorem load_error_is_reported file st fileStat content m literal resolved e :
  fs_stat (location file) = Ok fileStat →
  isFile fileStat = true →
  path_extname file = ".liquid" →
  fs_readFile (location file) = Ok content →
  exec replaceableSchemaRegex content = Some m →
  group m 1 = Some literal →
  require_resolve (importable literal) = Ok resolved →
  module_outcome (require_cache st) resolved = Throw e →
  (processFile options file st).1 = Ok tt
  ∧ errors (processFile options file st).2
    = errors st
      ++ [error_entry file
            (load_error (m_text m) (importable literal) (location file))]
  ∧ assets (processFile options file st).2 = assets st.
Proof.
  intros Hstat Hfile Hext Hread Hexec Hlit Hres Hout.
  pose proof (replaceSchemaTags_load_error _ _ st _ _ _ _ _
                Hread Hexec Hlit Hres Hout) as Hthrow.
  rewrite (processFile_eligible _ _ _ _ Hstat Hfile Hext).
  unfold try_catch, transform, bind.
  destruct (replaceSchemaTags options (location file) st) as [r st1] eqn:Hrun.
  apply replaceSchemaTags_frame in Hrun as (Hassets & Herrors & _).
  simpl in Hthrow. subst r. simpl. by rewrite Hassets, Herrors.
Qed.

(** X12.  What a schema function throws is reported for the file as it is,
    behind the relative path of the file: the message for modules that
    cannot be loaded is not used, the function has been called once, and
    no asset is written. *)
Theorem generator_error_is_reported file st fileStat content m literal
    resolved src f e :
  fs_stat (location file) = Ok fileStat →
  isFile fileStat = true →
  path_extname file = ".liquid" →
  fs_readFile (location file) = Ok content →
  exec replaceableSchemaRegex content = Some m →
  group m 1 = Some literal →
  require_resolve (importable literal) = Ok resolved →
  module_outcome (require_cache st) resolved = Ok (VFun src f) →
  f (path_basename (location file) ".liquid") (inline_override m) = Throw e →
  (processFile options file st).1 = Ok tt
  ∧ errors (processFile options file st).2 = errors st ++ [error_entry file e]
  ∧ assets (processFile options file st).2 = assets st
  ∧ calls (processFile options file st).2
    = calls st ++ [{| callee := resolved;
                      arg_name := path_basename (location file) ".liquid";
                      arg_contents := inline_override m |}].
Proof.
  intros Hstat Hfile Hext Hread Hexec Hlit Hres Hout Hcall.
  assert (∃ st2, replaceSchemaTags options (location file) st = (Throw e, st2)
                 ∧ assets st2 = assets st ∧ errors st2 = errors st
                 ∧ calls st2
                   = calls st
                     ++ [{| callee := resolved;
                            arg_name := path_basename (location file) ".liquid";
                            arg_contents := inline_override m |}])
    as (st2 & Hrun & Hassets & Herrors & Hcalls).
  { rewrite (replaceSchemaTags_directive _ _ _ _ _ _ _ Hread Hexec Hlit Hres).
    run_monad.
    destruct (require_run _ _ (add_fileDependency resolved st) Hres)
      as (st1 & -> & Ha & He & Hc).
    simpl in *. rewrite Hout. simpl. rewrite Hcall.
    eexists. split; [reflexivity|]. simpl. by rewrite Hc. }
  assert (processFile options file st
          = (Ok tt, push_error (error_entry file e) st2)) as ->.
  { rewrite (processFile_eligible _ _ _ _ Hstat Hfile Hext).
    unfold try_catch, transform, bind. by rewrite Hrun. }
  simpl. by rewrite Hassets, Herrors, Hcalls.
Qed.

(** *** The rules of the duplicate directive *)

(** X13.  A duplicate directive whose body is not JSON gives the file one
    error, the one [JSON.parse] throws, and no asset. *)
Theorem unparsable_rules_are_reported file st fileStat out st1 m body e :
  fs_stat (location file) = Ok fileStat →
  isFile fileStat = true →
  path_extname file = ".liquid" →
  replaceSchemaTags options (location file) st = (Ok out, st1) →
  exec getDuplicateRules_regex (_value out) = Some m →
  group m 1 = Some body →
  body ≠ "" →
  JSON_parse body = Throw e →
  processFile options file st = (Ok tt, push_error (error_entry file e) st1)
  ∧ assets st1 = assets st.
Proof.
  intros Hstat Hfile Hext Hrun Hexec Hbody Hne Hparse.
  pose proof (replaceSchemaTags_frame _ _ _ _ _ Hrun) as (Hassets & _ & _).
  split; [|done].
  rewrite (processFile_eligible _ _ _ _ Hstat Hfile Hext).
  unfold try_catch, transform, getDuplicateRules. run_monad.
  rewrite Hrun, Hexec, Hbody. apply String.eqb_neq in Hne.
  by rewrite Hne; simpl; rewrite Hparse.
Qed.

(** X14.  Rules that parse to something truthy that is not an array (an
    object, a non-empty string, a number other than 0, [true]) give the
    file one error, the [TypeError] of the missing [forEach], and no
    asset. *)
Theorem rules_must_be_an_array file st fileStat out st1 m body rules :
  fs_stat (location file) = Ok fileStat →
  isFile fileStat = true →
  path_extname file = ".liquid" →
  replaceSchemaTags options (location file) st = (Ok out, st1) →
  exec getDuplicateRules_regex (_value out) = Some m →
  group m 1 = Some body →
  body ≠ "" →
  JSON_parse body = Ok rules →
  truthy rules = true →
  (∀ names, rules ≠ JArr names) →
  processFile options file st
  = (Ok tt, push_error (error_entry file no_forEach) st1)
  ∧ assets st1 = assets st.
Proof.
  intros Hstat Hfile Hext Hrun Hexec Hbody Hne Hparse Htruthy Harr.
  pose proof (replaceSchemaTags_frame _ _ _ _ _ Hrun) as (Hassets & _ & _).
  split; [|done].
  rewrite (processFile_eligible _ _ _ _ Hstat Hfile Hext).
  unfold try_catch, transform, getDuplicateRules, duplicatedFiles. run_monad.
  rewrite Hrun, Hexec, Hbody. apply String.eqb_neq in Hne.
  rewrite Hne; simpl; rewrite Hparse; simpl; rewrite Htruthy.
  destruct rules; try done. by destruct (Harr l).
Qed.

(** X15.  Rules that parse to something falsy ([null], [false], [0], the
    empty string) are no rules: the file is emitted under its natural key
    with the directive still in it. *)
Theorem falsy_rules_are_no_rules file st fileStat out st1 m body rules :
  fs_stat (location file) = Ok fileStat →
  isFile fileStat = true →
  path_extname file = ".liquid" →
  replaceSchemaTags options (location file) st = (Ok out, st1) →
  exec getDuplicateRules_regex (_value out) = Some m →
  group m 1 = Some body →
  body ≠ "" →
  JSON_parse body = Ok rules →
  truthy rules = false →
  processFile options file st
  = (Ok tt, set_assets (insert (natural_key file) (_value out)) st1).
Proof.
  intros Hstat Hfile Hext Hrun Hexec Hbody Hne Hparse Htruthy.
  rewrite (processFile_eligible _ _ _ _ Hstat Hfile Hext).
  unfold try_catch, transform, getDuplicateRules. run_monad.
  rewrite Hrun, Hexec, Hbody. apply String.eqb_neq in Hne.
  by rewrite Hne; simpl; rewrite Hparse; simpl; rewrite Htruthy.
Qed.

(** X16.  Rules that parse to the empty array make the file vanish from the
    output: no asset is written for it, not even under its natural key,
    and no error is recorded. *)
Theorem empty_rules_emit_nothing file st fileStat out st1 m body :
  fs_stat (location file) = Ok fileStat →
  isFile fileStat = true →
  path_extname file = ".liquid" →
  replaceSchemaTags options (location file) st = (Ok out, st1) →
  exec getDuplicateRules_regex (_value out) = Some m →
  group m 1 = Some body →
  body ≠ "" →
  JSON_parse body = Ok (JArr []) →
  (processFile options file st).1 = Ok tt
  ∧ assets (processFile options file st).2 = assets st
  ∧ errors (processFile options file st).2 = errors st.
Proof.
  intros Hstat Hfile Hext Hrun Hexec Hbody Hne Hparse.
  pose proof (replaceSchemaTags_frame _ _ _ _ _ Hrun) as (Hassets & Herrors & _).
  rewrite (processFile_eligible _ _ _ _ Hstat Hfile Hext).
  unfold try_catch, transform, getDuplicateRules, duplicatedFiles. run_monad.
  rewrite Hrun, Hexec, Hbody. apply String.eqb_neq in Hne.
  by rewrite Hne; simpl; rewrite Hparse.
Qed.

End Files.

(** ** Text: what a match covers and what a replacement touches *)

Section Text.

Open Scope list_scope.

Implicit Types (s pre post : string) (a : ascii) (r : regex) (c : caps).

(** *** Strings *)

Lemma append_cons a s1 s2 : String a s1 +:+ s2 = String a (s1 +:+ s2).
Proof. reflexivity. Qed.

Lemma append_empty_l s : "" +:+ s = s.
Proof. reflexivity. Qed.

Ltac unfold_append :=
  repeat first [rewrite append_cons | rewrite append_empty_l];
  cbn [String.length String.substring].

Lemma append_empty_r s : s +:+ "" = s.
Proof. induction s as [|a s IH]; unfold_append; [done | by rewrite IH]. Qed.

Lemma append_assoc s1 s2 s3 : (s1 +:+ s2) +:+ s3 = s1 +:+ (s2 +:+ s3).
Proof. induction s1 as [|a s1 IH]; unfold_append; [done | by rewrite IH]. Qed.

Lemma length_append s1 s2 :
  String.length (s1 +:+ s2) = (String.length s1 + String.length s2)%nat.
Proof. induction s1 as [|a s1 IH]; unfold_append; [done | by rewrite IH]. Qed.

Lemma substring_all s : String.substring 0 (String.length s) s = s.
Proof. induction s as [|a s IH]; unfold_append; [done | by rewrite IH]. Qed.

Lemma substring_head s1 s2 :
  String.substring 0 (String.length s1) (s1 +:+ s2) = s1.
Proof.
  induction s1 as [|a s1 IH]; unfold_append; [by destruct s2 | by rewrite IH].
Qed.

Lemma substring_skip s1 s2 n :
  String.substring (String.length s1) n (s1 +:+ s2) = String.substring 0 n s2.
Proof. induction s1 as [|a s1 IH]; unfold_append; done. Qed.

Lemma slice_middle s1 s2 s3 :
  slice (s1 +:+ s2 +:+ s3) (String.length s1)
    (String.length s1 + String.length s2) = s2.
Proof.
  unfold slice. rewrite substring_skip.
  replace (String.length s1 + String.length s2 - String.length s1)%nat
    with (String.length s2) by lia.
  apply substring_head.
Qed.

Lemma slice_head s1 s2 : slice (s1 +:+ s2) 0 (String.length s1) = s1.
Proof. unfold slice. rewrite Nat.sub_0_r. apply substring_head. Qed.

Lemma drop_str_append s1 s2 : drop_str (String.length s1) (s1 +:+ s2) = s2.
Proof.
  unfold drop_str. rewrite substring_skip, length_append.
  replace (String.length s1 + String.length s2 - String.length s1)%nat
    with (String.length s2) by lia.
  apply substring_all.
Qed.

Lemma prefix_append p s :
  String.prefix p s = true → ∃ rest, s = p +:+ rest.
Proof.
  revert s. induction p as [|a p IH]; intros s.
  - intros _. by exists s.
  - destruct s as [|b s]; cbn [String.prefix]; [done|].
    destruct (ascii_dec a b) as [->|]; [|done].
    intros [rest ->]%IH. by exists rest.
Qed.

(** *** What a match covers *)

(** Whatever [rmatch] hands to its continuation is a suffix of the input,
    at the offset the consumed characters lead to. *)
Lemma rmatch_span {R} r pos s c (k : nat → string → caps → option R) x :
  rmatch r pos s c k = Some x →
  ∃ pre post c', s = pre +:+ post
                 ∧ k (pos + String.length pre)%nat post c' = Some x.
Proof.
  revert pos s c k. induction r as [|cs|r1 IH1 r2 IH2|r1 IH1 r2 IH2|r1 IH1|cs|i r1 IH1| |];
    intros pos s c k; cbn [rmatch].
  - intros Hk. exists "", s, c. by rewrite Nat.add_0_r.
  - destruct s as [|a s]; [done|]. destruct (cset_mem cs a); [|done].
    intros Hk. exists (String a ""), s, c. unfold_append.
    by rewrite Nat.add_1_r.
  - intros (pre1 & post1 & c1 & -> & Hk)%IH1.
    apply IH2 in Hk as (pre2 & post2 & c2 & -> & Hk).
    exists (pre1 +:+ pre2), post2, c2.
    by rewrite append_assoc, length_append, Nat.add_assoc.
  - destruct (rmatch r1 pos s c k) eqn:H1.
    + intros [= <-]. by apply IH1 in H1.
    + by intros ?%IH2.
  - destruct (rmatch r1 pos s c k) eqn:H1.
    + intros [= <-]. by apply IH1 in H1.
    + intros Hk. exists "", s, c. by rewrite Nat.add_0_r.
  - revert pos. induction s as [|a s IHs]; intros pos.
    + intros Hk. exists "", "", c. by rewrite Nat.add_0_r.
    + destruct (cset_mem cs a).
      * match goal with |- context [match ?star with _ => _ end] =>
          destruct star eqn:Hstar end.
        -- intros [= <-]. apply IHs in Hstar as (pre & post & c' & -> & Hk).
           exists (String a pre), post, c'. unfold_append.
           by rewrite Nat.add_succ_r.
        -- intros Hk. exists "", (String a s), c. by rewrite Nat.add_0_r.
      * intros Hk. exists "", (String a s), c. by rewrite Nat.add_0_r.
  - intros (pre & post & c' & -> & Hk)%IH1. by eexists pre, post, _.
  - destruct (pos =? 0)%nat; [|done].
    intros Hk. exists "", s, c. by rewrite Nat.add_0_r.
  - destruct s; [|done].
    intros Hk. exists "", "", c. by rewrite Nat.add_0_r.
Qed.

Lemma match_at_span r pos s e c :
  match_at r pos s = Some (e, c) →
  ∃ pre post, s = pre +:+ post ∧ e = (pos + String.length pre)%nat.
Proof.
  unfold match_at. intros (pre & post & c' & -> & [= <- _])%rmatch_span.
  by exists pre, post.
Qed.

Lemma search_span r pos s b e c :
  search r pos s = Some (b, e, c) →
  ∃ skipped pre post,
    s = skipped +:+ pre +:+ post
    ∧ b = (pos + String.length skipped)%nat
    ∧ e = (b + String.length pre)%nat.
Proof.
  revert pos. induction s as [|a s IH]; intros pos; cbn [search].
  - destruct (match_at r pos "") as [[e' c']|] eqn:Hm; [|done].
    intros [= <- <- <-]. apply match_at_span in Hm as (pre & post & -> & ->).
    exists "", pre, post. by rewrite Nat.add_0_r.
  - destruct (match_at r pos (String a s)) as [[e' c']|] eqn:Hm.
    + intros [= <- <- <-]. apply match_at_span in Hm as (pre & post & -> & ->).
      exists "", pre, post. by rewrite Nat.add_0_r.
    + intros (skipped & pre & post & -> & -> & ->)%IH.
      exists (String a skipped), pre, post. unfold_append.
      by rewrite Nat.add_succ_r.
Qed.

(** The match [exec] returns lies inside the input: the input is what
    comes before the match, the matched text, and what comes after. *)
Lemma exec_span r s m :
  exec r s = Some m →
  ∃ before after,
    s = before +:+ m_text m +:+ after
    ∧ m_index m = String.length before
    ∧ m_end m = (String.length before + String.length (m_text m))%nat
    ∧ slice s 0 (m_index m) = before
    ∧ drop_str (m_end m) s = after.
Proof.
  unfold exec. destruct (search r 0 s) as [[[b e] c]|] eqn:Hs; [|done].
  intros [= <-]. apply search_span in Hs as (before & text & after & -> & -> & ->).
  simpl. exists before, after.
  rewrite slice_middle, slice_head.
  rewrite <- length_append, <- append_assoc, drop_str_append.
  by rewrite append_assoc, length_append.
Qed.

(** *** Replacement text without patterns *)

Lemma index_of_char_cons d pos a s :
  index_of (String d "") pos (String a s) = None →
  d ≠ a ∧ index_of (String d "") (S pos) s = None.
Proof.
  cbn [index_of String.prefix]. destruct (ascii_dec d a) as [->|Hne].
  - by destruct s.
  - done.
Qed.

(** A replacement text without a dollar sign stands for itself. *)
Lemma get_substitution_plain matched before after gs repl pos :
  index_of "$" pos repl = None →
  get_substitution matched before after gs repl = repl.
Proof.
  revert pos. induction repl as [|a tl IH]; intros pos Hplain; [done|].
  apply index_of_char_cons in Hplain as [Hne Htl].
  cbn [get_substitution]. destruct tl as [|b rest]; [done|].
  replace (Ascii.eqb a "$") with false
    by (symmetry; apply Ascii.eqb_neq; congruence).
  cbn [negb]. by rewrite (IH _ Htl).
Qed.

Lemma index_of_plain_append d pos1 pos2 pos s1 s2 :
  index_of (String d "") pos1 s1 = None →
  index_of (String d "") pos2 s2 = None →
  index_of (String d "") pos (s1 +:+ s2) = None.
Proof.
  revert pos1 pos. induction s1 as [|a s1 IH]; intros pos1 pos H1 H2.
  - unfold_append. clear H1. revert pos2 pos H2.
    induction s2 as [|b s2 IH2]; intros pos2 pos H2; [done|].
    apply index_of_char_cons in H2 as [Hne H2].
    cbn [index_of String.prefix]. destruct (ascii_dec d b); [done|].
    by apply (IH2 (S pos2)).
  - apply index_of_char_cons in H1 as [Hne H1]. unfold_append.
    cbn [index_of String.prefix]. destruct (ascii_dec d a); [done|].
    by apply (IH (S pos1)).
Qed.

Lemma index_of_span pat pos s i :
  index_of pat pos s = Some i →
  ∃ before after,
    s = before +:+ pat +:+ after ∧ i = (pos + String.length before)%nat.
Proof.
  revert pos. induction s as [|a s IH]; intros pos; cbn [index_of].
  - destruct (String.prefix pat "") eqn:Hp; [|done].
    intros [= <-]. apply prefix_append in Hp as [rest Hrest].
    exists "", rest. by rewrite Nat.add_0_r.
  - destruct (String.prefix pat (String a s)) eqn:Hp.
    + intros [= <-]. apply prefix_append in Hp as [rest Hrest].
      exists "", rest. by rewrite Nat.add_0_r.
    + intros (before & after & -> & ->)%IH.
      exists (String a before), after. unfold_append.
      by rewrite Nat.add_succ_r.
Qed.

End Text.

Section Rewriting.

Context {HOST : Host}.
Variable options : config.

Open Scope list_scope.

(** X17.  Rewriting the schema directive changes the matched block only:
    what stands before and after it in the file is kept, and when the
    serialised schema holds no dollar sign the block becomes the three
    lines [{% schema %}], the JSON and [{% endschema %}]. *)
Theorem rewritten_keeps_the_rest content m schema :
  exec replaceableSchemaRegex content = Some m →
  index_of "$" 0 (JSON_stringify schema 4) = None →
  ∃ before after,
    content = before +:+ m_text m +:+ after
    ∧ _value (rewritten content schema)
      = before
        +:+ ("{% schema %}" +:+ LF +:+ JSON_stringify schema 4 +:+ LF
             +:+ "{% endschema %}")
        +:+ after.
Proof.
  intros Hexec Hplain.
  destruct (exec_span _ _ _ Hexec) as (before & after & Hs & _ & _ & Hb & Ha).
  exists before, after. split; [done|].
  unfold rewritten, replace_regex. cbn [_value]. rewrite Hexec, Hb, Ha.
  f_equal. f_equal.
  apply (get_substitution_plain _ _ _ _ _ 0).
  apply (index_of_plain_append _ 0 0); [done|].
  apply (index_of_plain_append _ 0 0); [done|].
  by apply (index_of_plain_append _ 0 0).
Qed.

(** X18.  [cleanDupicateTag] cuts the block its expression matches out of the
    content and keeps everything before and after it. *)
Theorem cleanDupicateTag_cuts_the_match content m :
  exec cleanDupicateTag_regex content = Some m →
  ∃ before after,
    content = before +:+ m_text m +:+ after
    ∧ _value (cleanDupicateTag {| _value := content |}) = before +:+ after.
Proof.
  intros Hexec.
  destruct (exec_span _ _ _ Hexec) as (before & after & Hs & _ & _ & Hb & Ha).
  exists before, after. split; [done|].
  unfold cleanDupicateTag, replace_regex. cbn [_value].
  by rewrite Hexec, Hb, Ha.
Qed.

(** X19.  For a target name without a dollar sign, the variant is the
    template with the first occurrence of the placeholder, and only it,
    replaced by the name. *)
Theorem variant_replaces_first_placeholder template name i :
  index_of placeholder 0 template = Some i →
  index_of "$" 0 name = None →
  ∃ before after,
    template = before +:+ placeholder +:+ after
    ∧ String.length before = i
    ∧ variant template name = before +:+ name +:+ after.
Proof.
  intros Hi Hplain.
  destruct (index_of_span _ _ _ _ Hi) as (before & after & Hs & ->).
  exists before, after. split; [done|]. split; [done|].
  unfold variant, replace_string. rewrite Hi. cbn zeta.
  rewrite (get_substitution_plain _ _ _ _ _ 0 Hplain).
  rewrite Hs at 1 2. rewrite !Nat.add_0_l, slice_head.
  rewrite <- length_append, <- (append_assoc before placeholder after).
  by rewrite drop_str_append.
Qed.

End Rewriting.

Section Expressions.

Open Scope list_scope.

Implicit Types (s : string) (a : ascii) (r : regex) (c : caps).

(** *** A weaker continuation *)

(** Whether [rmatch] succeeds only depends on where its continuation
    succeeds. *)
Lemma rmatch_mono {R R'} r pos s c
    (k : nat → string → caps → option R) (k' : nat → string → caps → option R') :
  (∀ p t c', is_Some (k p t c') → is_Some (k' p t c')) →
  is_Some (rmatch r pos s c k) → is_Some (rmatch r pos s c k').
Proof.
  revert pos s c k k'.
  induction r as [|cs|r1 IH1 r2 IH2|r1 IH1 r2 IH2|r1 IH1|cs|i r1 IH1| |];
    intros pos s c k k' Hk; cbn [rmatch].
  - apply Hk.
  - destruct s as [|a s]; [done|]. destruct (cset_mem cs a); [apply Hk | done].
  - apply IH1. intros p t c'. by apply IH2.
  - destruct (rmatch r1 pos s c k) eqn:H1.
    + intros _. destruct (IH1 pos s c k k' Hk) as [x ->]; [by rewrite H1|].
      by eexists.
    + intros H2%(IH2 _ _ _ _ k' Hk).
      by destruct (rmatch r1 pos s c k').
  - destruct (rmatch r1 pos s c k) eqn:H1.
    + intros _. destruct (IH1 pos s c k k' Hk) as [x ->]; [by rewrite H1|].
      by eexists.
    + intros H2%Hk. by destruct (rmatch r1 pos s c k').
  - revert pos. induction s as [|a s IHs]; intros pos; [apply Hk|].
    destruct (cset_mem cs a); [|apply Hk].
    match goal with |- context [match ?star with _ => _ end] =>
      destruct star eqn:Hstar end.
    + intros _. destruct (IHs (S pos)) as [x Hx]; [by rewrite Hstar|].
      rewrite Hx. by eexists.
    + intros H2%Hk.
      match goal with |- context [match ?star with _ => _ end] =>
        by destruct star end.
  - apply IH1. intros p t c'. apply Hk.
  - destruct (pos =? 0)%nat; [apply Hk | done].
  - destruct s; [apply Hk | done].
Qed.

(** Dropping the last item of a sequence keeps it matching where it
    matched. *)
Lemma seq_without_last {R R'} (l : list regex) (last : regex) pos s c
    (k : nat → string → caps → option R) (k' : nat → string → caps → option R') :
  l ≠ [] →
  (∀ p t c', is_Some (k' p t c')) →
  is_Some (rmatch (seq (l ++ [last])) pos s c k) →
  is_Some (rmatch (seq l) pos s c k').
Proof.
  intros Hl Hk'. revert pos s c. induction l as [|r1 l IH]; [done|].
  intros pos s c. destruct l as [|r2 l].
  - cbn [app seq rmatch]. apply rmatch_mono. intros p t c' _. apply Hk'.
  - change (seq ((r1 :: r2 :: l) ++ [last]))
      with (Seq r1 (seq ((r2 :: l) ++ [last]))).
    change (seq (r1 :: r2 :: l)) with (Seq r1 (seq (r2 :: l))).
    cbn [rmatch]. apply rmatch_mono. intros p t c'. by apply IH.
Qed.

Lemma search_mono r r' pos s :
  (∀ p t, is_Some (match_at r p t) → is_Some (match_at r' p t)) →
  is_Some (search r pos s) → is_Some (search r' pos s).
Proof.
  intros Hm. revert pos. induction s as [|a s IH]; intros pos; cbn [search].
  - destruct (match_at r pos "") as [[e c]|] eqn:H1; [|by intros [? ?]].
    intros _. destruct (Hm pos "") as [[e' c'] ->]; [by rewrite H1|].
    by eexists.
  - destruct (match_at r pos (String a s)) as [[e c]|] eqn:H1.
    + intros _. destruct (Hm pos (String a s)) as [[e' c'] ->]; [by rewrite H1|].
      by eexists.
    + intros H2%IH. by destruct (match_at r' pos (String a s)) as [[e' c']|].
Qed.

(** X20.  A content in which [getDuplicateRules] finds no directive is left
    as it is by [cleanDupicateTag]. *)
Theorem cleanDupicateTag_needs_a_directive content :
  exec getDuplicateRules_regex content = None →
  cleanDupicateTag {| _value := content |} = {| _value := content |}.
Proof.
  intros Hnone. unfold cleanDupicateTag, replace_regex. cbn [_value].
  destruct (exec cleanDupicateTag_regex content) as [m|] eqn:Hclean; [|done].
  exfalso. unfold exec in *.
  assert (is_Some (search getDuplicateRules_regex 0 content)) as [x Hx].
  { apply (search_mono cleanDupicateTag_regex).
    - intros p t. unfold match_at.
      change (ngroups cleanDupicateTag_regex) with (ngroups getDuplicateRules_regex).
      change cleanDupicateTag_regex
        with (seq ([tag_open "duplicate"; tag_close;
                    Group 1 (Group 2 (Star CsAny));
                    tag_open "endduplicate"; tag_close] ++ [lit (LF +:+ LF)])).
      apply seq_without_last; [done | by eexists].
    - by destruct (search cleanDupicateTag_regex 0 content). }
  by rewrite Hx in Hnone; destruct x as [[? ?] ?].
Qed.

End Expressions.

Section Quotes.

Context {HOST : Host}.
Variable options : config.

Open Scope list_scope.

Lemma match_at_quotes_first q t :
  is_quote q →
  ∃ c, match_at quotesRegex 0 (String q t) = Some (1, c).
Proof. intros [-> | ->]; by eexists. Qed.

Lemma match_at_quotes_last pos q :
  is_quote q →
  ∃ c, match_at quotesRegex (S pos) (String q "") = Some (S (S pos), c).
Proof. intros [-> | ->]; by eexists. Qed.

Lemma match_at_quotes_inner pos a b t :
  match_at quotesRegex (S pos) (String a (String b t)) = None.
Proof.
  unfold match_at. cbn -[Ascii.eqb].
  by destruct (Ascii.eqb "'" a), (Ascii.eqb "034" a).
Qed.

Lemma match_at_quotes_end pos : match_at quotesRegex (S pos) "" = None.
Proof. done. Qed.

Lemma strip_closing_quote whole pos q s :
  is_quote q →
  replace_all_from whole quotesRegex "" (S pos) 0 (s +:+ String q "") = s.
Proof.
  intros Hq. revert pos. induction s as [|a s IH]; intros pos.
  - change ("" +:+ String q "") with (String q "").
    cbn [replace_all_from].
    destruct (match_at_quotes_last pos q Hq) as [c ->].
    replace (S (S pos) =? S pos)%nat with false
      by (symmetry; apply Nat.eqb_neq; lia).
    replace (S (S pos) - S pos - 1)%nat with 0%nat by lia.
    cbn [replace_all_from]. by rewrite match_at_quotes_end.
  - change (String a s +:+ String q "") with (String a (s +:+ String q "")).
    cbn [replace_all_from].
    assert (∃ b t, s +:+ String q "" = String b t) as (b & t & Hs)
      by (destruct s; by eexists _, _).
    rewrite Hs, match_at_quotes_inner, <- Hs. by rewrite IH.
Qed.

(** X21.  The path handed to [require] is the inside of the quoted literal,
    resolved against [from.schema]: the two surrounding quotes are
    removed, and only they. *)
Theorem importable_strips_the_quotes q s :
  is_quote q →
  importable options (String q (s +:+ String q ""))
  = path_resolve (from_schema options) s.
Proof.
  intros Hq. unfold importable. f_equal.
  unfold replace_regex_g. cbn [replace_all_from].
  destruct (match_at_quotes_first q (s +:+ String q "") Hq) as [c ->].
  cbn [Nat.eqb Nat.sub]. by rewrite strip_closing_quote.
Qed.

End Quotes.

Section Outputs.

Context {HOST : Host}.
Variable options : config.

Open Scope js_scope.
Open Scope list_scope.

Local Abbreviation location := (location options).
Local Abbreviation natural_key := (natural_key options).
Local Abbreviation importable := (importable options).
Local Abbreviation variant_key := (variant_key options).

Ltac run_monad :=
  unfold bind, lift, gets, modify, ret, throw, try_catch in *.

(** X22.  A file whose schema directive resolves to a value of type object,
    and which holds no duplicate directive, is emitted once, under its
    natural key, with the directive rewritten; no error is recorded. *)
Theorem schema_is_written file st fileStat content m literal resolved
    imported schema :
  fs_stat (location file) = Ok fileStat →
  isFile fileStat = true →
  path_extname file = ".liquid" →
  fs_readFile (location file) = Ok content →
  exec replaceableSchemaRegex content = Some m →
  group m 1 = Some literal →
  require_resolve (importable literal) = Ok resolved →
  module_outcome (require_cache st) resolved = Ok imported →
  effective_schema imported (path_basename (location file) ".liquid")
    (inline_override m) = Ok schema →
  is_object_type (typeof schema) = true →
  exec getDuplicateRules_regex (_value (rewritten content schema)) = None →
  (processFile options file st).1 = Ok tt
  ∧ assets (processFile options file st).2
    = <[natural_key file := _value (rewritten content schema)]> (assets st)
  ∧ errors (processFile options file st).2 = errors st.
Proof.
  intros Hstat Hfile Hext Hread Hexec Hlit Hres Hout Heff Htype Hdup.
  assert (∃ st1, replaceSchemaTags options (location file) st
                 = (Ok (rewritten content schema), st1)
                 ∧ assets st1 = assets st ∧ errors st1 = errors st)
    as (st1 & Hrun & Hassets & Herrors).
  { rewrite (replaceSchemaTags_directive _ _ _ _ _ _ _ Hread Hexec Hlit Hres).
    run_monad.
    destruct (require_run _ _ (add_fileDependency resolved st) Hres)
      as (st1 & -> & Ha & He & _).
    simpl in *. rewrite Hout.
    destruct imported; simpl in *; simplify_eq; simpl;
      try (eexists; split; [reflexivity | by split]).
    rewrite Heff, Htype. simpl.
    eexists; split; [reflexivity | by split]. }
  rewrite (processFile_eligible _ _ _ _ Hstat Hfile Hext).
  unfold try_catch, transform, getDuplicateRules. run_monad.
  rewrite Hrun, Hdup. simpl. by rewrite Hassets, Herrors.
Qed.

Lemma with_variants_app template l1 l2 assetList :
  with_variants options template (l1 ++ l2) assetList
  = with_variants options template l2
      (with_variants options template l1 assetList).
Proof. unfold with_variants. apply foldl_app. Qed.

(** X23.  When the targets of a duplicate directive have different output
    keys, the asset under the key of each target is the variant made for
    that target. *)
Theorem each_target_has_its_variant fileContent assetList targets name :
  NoDup (map variant_key targets) →
  name ∈ targets →
  ∃ assetList',
    duplicatedFiles options (outputPath options) (JArr (map JStr targets))
      fileContent assetList = Ok assetList'
    ∧ assetList' !! variant_key name
      = Some (variant (_value fileContent) name).
Proof.
  intros Hkeys Hin. rewrite duplicatedFiles_names. eexists. split; [done|].
  apply list_elem_of_split in Hin as (l1 & l2 & ->).
  rewrite map_app, map_cons in Hkeys.
  apply NoDup_app in Hkeys as (_ & _ & Hkeys).
  apply NoDup_cons in Hkeys as [Hlast _].
  rewrite with_variants_app.
  change (name :: l2) with ([name] ++ l2). rewrite with_variants_app.
  rewrite with_variants_other.
  - apply lookup_insert_eq.
  - intros n Hn Heq. apply Hlast. rewrite Heq.
    apply list_elem_of_fmap. by exists n.
Qed.




End Outputs.

(** ** The further properties at work *)

Section ShopAgain.

#[local] Existing Instance Demo.shop_host.

Open Scope list_scope.

Local Abbreviation options := Demo.options.
Local Abbreviation start := Demo.start.

(** X2 at work. *)
Lemma buildSchema_fulfilled_witness : (buildSchema options start).1 = Ok tt.
Proof.
  apply (buildSchema_fulfilled options start Demo.shop_listing); reflexivity.
Defined.

(** X3 at work. *)
Lemma promise_all_skips_other_entries_witness :
  promise_all (map (processFile options) Demo.shop_listing) start
  = promise_all (map (processFile options)
                   (filter (λ file, eligible options file) Demo.shop_listing)) start.
Proof.
  apply (promise_all_skips_other_entries options Demo.shop_listing start).
  reflexivity.
Defined.

(** X5 at work. *)
Lemma buildSchema_errors_bound_witness :
  (length (errors (buildSchema options start).2)
   ≤ length (errors start)
     + length (filter (λ file, eligible options file) Demo.shop_listing))%nat.
Proof.
  apply (buildSchema_errors_bound options start Demo.shop_listing). reflexivity.
Defined.

(** X6 at work. *)
Lemma buildSchema_restores_cache_witness :
  require_cache (buildSchema options start).2 = require_cache start.
Proof.
  apply (buildSchema_restores_cache options start
           (buildSchema options start).2 Demo.shop_listing).
  - reflexivity.
  - vm_compute. reflexivity.
Defined.

(** X7 at work. *)
Lemma plain_file_passes_through_witness :
  processFile options "plain.liquid" start
  = (Ok tt,
     set_assets (insert (natural_key options "plain.liquid") "<p>plain</p>")
       start).
Proof.
  apply (plain_file_passes_through options "plain.liquid" start
           {| isFile := true |} "<p>plain</p>"); reflexivity.
Defined.

(** X9 at work. *)
Lemma resolved_module_is_a_dependency_witness :
  fileDependencies (processFile options "count.liquid" start).2
  = {["/shop/src/schema/count.json"]} ∪ fileDependencies start.
Proof.
  apply (resolved_module_is_a_dependency options "count.liquid" start
           {| isFile := true |} "{% schema 'count' %}"
           {| m_index := 0; m_end := 20; m_text := "{% schema 'count' %}";
              m_groups := [Some "'count'"; None; None] |}
           "'count'" "/shop/src/schema/count.json"); reflexivity.
Defined.

(** X10 at work. *)
Lemma plain_export_is_the_schema_witness :
  calls (replaceSchemaTags options (location options "hero.liquid") start).2
  = calls start
  ∧ (replaceSchemaTags options (location options "hero.liquid") start).1
    = if is_object_type (typeof Demo.hero_schema)
      then Ok (rewritten Demo.hero_liquid Demo.hero_schema)
      else Throw (type_error Demo.hero_schema "/shop/src/schema/hero.js").
Proof.
  apply (plain_export_is_the_schema options (location options "hero.liquid")
           start Demo.hero_liquid Demo.hero_match "'hero'"
           "/shop/src/schema/hero.js" Demo.hero_schema);
    [reflexivity .. | discriminate].
Defined.

(** X11 at work. *)
Lemma load_error_is_reported_witness :
  (processFile options "broken.liquid" start).1 = Ok tt
  ∧ errors (processFile options "broken.liquid" start).2
    = errors start
      ++ [error_entry options "broken.liquid"
            (load_error "{% schema 'broken' %}"
               (importable options "'broken'")
               (location options "broken.liquid"))]
  ∧ assets (processFile options "broken.liquid" start).2 = assets start.
Proof.
  apply (load_error_is_reported options "broken.liquid" start
           {| isFile := true |} "{% schema 'broken' %}"
           {| m_index := 0; m_end := 21; m_text := "{% schema 'broken' %}";
              m_groups := [Some "'broken'"; None; None] |}
           "'broken'" "/shop/src/schema/broken.js"
           (ThrownError "ReferenceError" "settings is not defined"));
    reflexivity.
Defined.

(** X22 at work. *)
Lemma schema_is_written_witness :
  (processFile options "hero.liquid" start).1 = Ok tt
  ∧ assets (processFile options "hero.liquid" start).2
    = <[natural_key options "hero.liquid"
        := _value (rewritten Demo.hero_liquid Demo.hero_schema)]> (assets start)
  ∧ errors (processFile options "hero.liquid" start).2 = errors start.
Proof.
  apply (schema_is_written options "hero.liquid" start {| isFile := true |}
           Demo.hero_liquid Demo.hero_match "'hero'"
           "/shop/src/schema/hero.js" Demo.hero_schema Demo.hero_schema);
    reflexivity.
Defined.

(** X17 at work. *)
Lemma rewritten_keeps_the_rest_witness :
  ∃ before after,
    Demo.hero_liquid = before +:+ m_text Demo.hero_match +:+ after
    ∧ _value (rewritten Demo.hero_liquid Demo.hero_schema)
      = before
        +:+ ("{% schema %}" +:+ LF +:+ JSON_stringify Demo.hero_schema 4 +:+ LF
             +:+ "{% endschema %}")
        +:+ after.
Proof.
  apply (rewritten_keeps_the_rest Demo.hero_liquid Demo.hero_match
           Demo.hero_schema); reflexivity.
Defined.

(** X18 at work. *)
Lemma cleanDupicateTag_cuts_the_match_witness :
  ∃ before after,
    _value Demo.cards_resolved = before +:+ m_text Demo.cards_block +:+ after
    ∧ _value (cleanDupicateTag {| _value := _value Demo.cards_resolved |})
      = before +:+ after.
Proof.
  apply (cleanDupicateTag_cuts_the_match (_value Demo.cards_resolved)
           Demo.cards_block). reflexivity.
Defined.

(** X19 at work. *)
Lemma variant_replaces_first_placeholder_witness :
  ∃ before after,
    "<p>-{{title_section}}-</p>" = before +:+ placeholder +:+ after
    ∧ String.length before = 3
    ∧ variant "<p>-{{title_section}}-</p>" "red" = before +:+ "red" +:+ after.
Proof.
  apply (variant_replaces_first_placeholder "<p>-{{title_section}}-</p>"
           "red" 3); reflexivity.
Defined.

(** X20 at work. *)
Lemma cleanDupicateTag_needs_a_directive_witness :
  cleanDupicateTag {| _value := "<p>plain</p>" |} = {| _value := "<p>plain</p>" |}.
Proof.
  apply (cleanDupicateTag_needs_a_directive "<p>plain</p>"). reflexivity.
Defined.

(** X21 at work. *)
Lemma importable_strips_the_quotes_witness :
  importable options (String "'" ("hero" +:+ String "'" ""))
  = path_resolve (from_schema options) "hero".
Proof.
  apply (importable_strips_the_quotes options "'" "hero"). left. reflexivity.
Defined.

(** X23 at work. *)
Lemma each_target_has_its_variant_witness :
  ∃ assetList',
    duplicatedFiles options (outputPath options)
      (JArr (map JStr ["red"; "blue"])) {| _value := "<p>-{{title_section}}-</p>" |}
      ∅ = Ok assetList'
    ∧ assetList' !! variant_key options "blue"
      = Some (variant "<p>-{{title_section}}-</p>" "blue").
Proof.
  apply (each_target_has_its_variant options
           {| _value := "<p>-{{title_section}}-</p>" |} ∅ ["red"; "blue"] "blue").
  - apply (bool_decide_unpack _). vm_compute. exact I.
  - apply (bool_decide_unpack _). vm_compute. exact I.
Defined.

End ShopAgain.

Section DeadLinkAgain.

#[local] Existing Instance Demo.dead_link_host.

Open Scope list_scope.

Local Abbreviation options := Demo.options.
Local Abbreviation start := Demo.start.


End DeadLinkAgain.

Section Bench.

#[local] Existing Instance Demo.bench_host.

Open Scope list_scope.

Local Abbreviation options := Demo.options.
Local Abbreviation start := Demo.start.

(** X8 at work. *)
Lemma unreadable_file_is_reported_witness :
  processFile options "secret.liquid" start
  = (Ok tt,
     push_error
       (error_entry options "secret.liquid"
          (Demo.eacces "/shop/src/sections/secret.liquid")) start).
Proof.
  apply (unreadable_file_is_reported options "secret.liquid" start
           {| isFile := true |}); reflexivity.
Defined.

(** X12 at work. *)
Lemma generator_error_is_reported_witness :
  (processFile options "faulty.liquid" start).1 = Ok tt
  ∧ errors (processFile options "faulty.liquid" start).2
    = errors start
      ++ [error_entry options "faulty.liquid"
            (ThrownError "RangeError" "too many blocks")]
  ∧ assets (processFile options "faulty.liquid" start).2 = assets start
  ∧ calls (processFile options "faulty.liquid" start).2
    = calls start
      ++ [{| callee := "/shop/src/schema/faulty.js";
             arg_name := path_basename (location options "faulty.liquid") ".liquid";
             arg_contents :=
               inline_override
                 {| m_index := 0; m_end := 21; m_text := "{% schema 'faulty' %}";
                    m_groups := [Some "'faulty'"; None; None] |} |}].
Proof.
  apply (generator_error_is_reported options "faulty.liquid" start
           {| isFile := true |} "{% schema 'faulty' %}"
           {| m_index := 0; m_end := 21; m_text := "{% schema 'faulty' %}";
              m_groups := [Some "'faulty'"; None; None] |}
           "'faulty'" "/shop/src/schema/faulty.js" "function faulty"
           Demo.faulty_schema); reflexivity.
Defined.

(** X13 at work. *)
Lemma unparsable_rules_are_reported_witness :
  processFile options "garbled.liquid" start
  = (Ok tt, push_error (error_entry options "garbled.liquid" Demo.syntax_error)
              start)
  ∧ assets start = assets start.
Proof.
  eapply (unparsable_rules_are_reported options "garbled.liquid" start
            {| isFile := true |} {| _value := Demo.garbled_liquid |} start
            _ "oops").
  - reflexivity.
  - reflexivity.
  - reflexivity.
  - reflexivity.
  - vm_compute. reflexivity.
  - reflexivity.
  - discriminate.
  - reflexivity.
Defined.

(** X14 at work. *)
Lemma rules_must_be_an_array_witness :
  processFile options "keyed.liquid" start
  = (Ok tt, push_error (error_entry options "keyed.liquid" no_forEach) start)
  ∧ assets start = assets start.
Proof.
  eapply (rules_must_be_an_array options "keyed.liquid" start
            {| isFile := true |} {| _value := Demo.keyed_liquid |} start
            _ "{}" (JObj [])).
  - reflexivity.
  - reflexivity.
  - reflexivity.
  - reflexivity.
  - vm_compute. reflexivity.
  - reflexivity.
  - discriminate.
  - reflexivity.
  - reflexivity.
  - discriminate.
Defined.

(** X15 at work. *)
Lemma falsy_rules_are_no_rules_witness :
  processFile options "null.liquid" start
  = (Ok tt,
     set_assets (insert (natural_key options "null.liquid") Demo.null_liquid)
       start).
Proof.
  eapply (falsy_rules_are_no_rules options "null.liquid" start
            {| isFile := true |} {| _value := Demo.null_liquid |} start
            _ "null" JNull).
  - reflexivity.
  - reflexivity.
  - reflexivity.
  - reflexivity.
  - vm_compute. reflexivity.
  - reflexivity.
  - discriminate.
  - reflexivity.
  - reflexivity.
Defined.

(** X16 at work. *)
Lemma empty_rules_emit_nothing_witness :
  (processFile options "none.liquid" start).1 = Ok tt
  ∧ assets (processFile options "none.liquid" start).2 = assets start
  ∧ errors (processFile options "none.liquid" start).2 = errors start.
Proof.
  eapply (empty_rules_emit_nothing options "none.liquid" start
            {| isFile := true |} {| _value := Demo.none_liquid |} start
            _ "[]").
  - reflexivity.
  - reflexivity.
  - reflexivity.
  - reflexivity.
  - vm_compute. reflexivity.
  - reflexivity.
  - discriminate.
  - reflexivity.
Defined.

End Bench.

Section NotesOnly.

#[local] Existing Instance Demo.notes_host.

Open Scope list_scope.

Local Abbreviation options := Demo.options.
Local Abbreviation start := Demo.start.


End NotesOnly.
